(** * TrendRIT: a shallow embedding of the front end and of the
      reconstruction-to-export pipeline

    The React components of [frontend/components] and [frontend/app/page.tsx]
    are embedded as state-passing programs over an explicit world: the
    component state ([useState] cells), the log of observable effects
    (network requests, console output, timers) and a network oracle that
    answers the k-th [fetch].  An [async] handler is run to completion as
    one step; two handlers suspended at an [await] at the same time are
    not interleaved.  Pipeline components whose code is not part of the
    front end (orchestrator, scene graph, renderer, frame encoder) are
    modelled from the specification and marked as such. *)

From stdpp Require Import base option list strings relations.
From Stdlib Require Import ZArith QArith DecimalString Lia.
Close Scope Q_scope.
Open Scope string_scope.
Open Scope list_scope.

(* ===================================================================== *)
(** ** JavaScript values as they come out of [response.json()] *)
(* ===================================================================== *)

Module JS.

(** Numbers are restricted to integers: no claim depends on fractions or
    NaN, and [0] is the only falsy number left. *)
#[warnings="-register-all"]
Inductive JSValue : Type :=
| JUndefined
| JNull
| JBool (b : bool)
| JNum (n : Z)
| JStr (s : string)
| JArr (items : list JSValue)
| JObj (fields : list (string * JSValue)).

(** ToBoolean. *)
Definition truthy (v : JSValue) : bool :=
  match v with
  | JUndefined | JNull => false
  | JBool b => b
  | JNum n => negb (n =? 0)%Z
  | JStr s => negb (String.eqb s "")
  | JArr _ | JObj _ => true
  end.

(** [a || b]. *)
Definition js_or (a b : JSValue) : JSValue := if truthy a then a else b.

(** [Array.isArray]. *)
Definition isArray (v : JSValue) : bool :=
  match v with JArr _ => true | _ => false end.

Fixpoint assoc (k : string) (fs : list (string * JSValue)) : JSValue :=
  match fs with
  | [] => JUndefined
  | (k', v) :: fs' => if String.eqb k k' then v else assoc k fs'
  end.

(** Exceptions that the handlers can observe. *)
Inductive Exn : Type :=
| TypeError (msg : string)
| SyntaxError (msg : string)
| Error (msg : string).

(** [v.k]: reading a property of [undefined] or [null] throws; a missing
    property reads as [undefined]. *)
Definition get_prop (v : JSValue) (k : string) : Exn + JSValue :=
  match v with
  | JUndefined | JNull =>
      inl (TypeError ("Cannot read properties of undefined (reading '" +:+ k +:+ "')"))
  | JObj fs => inr (assoc k fs)
  | JArr l => inr (if String.eqb k "length" then JNum (Z.of_nat (length l)) else JUndefined)
  | JStr s => inr (if String.eqb k "length" then JNum (Z.of_nat (String.length s)) else JUndefined)
  | JBool _ | JNum _ => inr JUndefined
  end.

(** ToString, as used by template literals. *)
Fixpoint to_string (v : JSValue) : string :=
  match v with
  | JUndefined => "undefined"
  | JNull => "null"
  | JBool true => "true"
  | JBool false => "false"
  | JNum n => NilEmpty.string_of_int (Z.to_int n)
  | JStr s => s
  | JArr l =>
      String.concat ","
        (map (fun x => match x with
                       | JUndefined | JNull => ""
                       | _ => to_string x
                       end) l)
  | JObj _ => "[object Object]"
  end.

(** [a === b] on the values the components compare (identifiers). *)
Definition strict_eq (a b : JSValue) : bool :=
  match a, b with
  | JUndefined, JUndefined | JNull, JNull => true
  | JBool x, JBool y => Bool.eqb x y
  | JNum x, JNum y => (x =? y)%Z
  | JStr x, JStr y => String.eqb x y
  | _, _ => false
  end.

End JS.
Export JS.

(* ===================================================================== *)
(** ** The world: network oracle, effect log, and the handler monad *)
(* ===================================================================== *)

Module World.

(** What one [fetch] call does: the promise rejects, or it resolves to a
    response with an [ok] flag whose [json()] either parses or rejects. *)
Inductive FetchResult : Type :=
| FetchRejected
| FetchResponse (ok : bool) (body : option JSValue).

Inductive Method : Type := GET | POST.

(** Request bodies the components send. *)
Inductive Body : Type :=
| NoBody
| FormData (fields : list (string * string))
| JsonBody (v : JSValue).              (* JSON.stringify v *)

Inductive Effect : Type :=
| EFetch (m : Method) (url : string) (body : Body)
| EConsoleError (msg : string) (e : Exn)
| EConsoleLog (msg : string) (v : JSValue)
| EWindowOpen (url : JSValue)
| EClearFileInput
| ESetTimeout (ms : Z) (memeId : JSValue).

Record Env : Type := mkEnv {
  NEXT_PUBLIC_API_URL : option string;  (* process.env.NEXT_PUBLIC_API_URL *)
  net : nat -> FetchResult;              (* answer to the k-th fetch *)
  nfetch : nat;                          (* fetches issued so far *)
  log : list Effect;                     (* oldest first *)
  timers : list JSValue;                 (* pending [onComplete(memeId)] timeouts *)
  now : Z                                (* clock read by [new Date()] *)
}.

(** [process.env.NEXT_PUBLIC_API_URL || "http://localhost:5000"] *)
Definition API_BASE_URL (e : Env) : string :=
  match NEXT_PUBLIC_API_URL e with
  | Some s => if String.eqb s "" then "http://localhost:5000" else s
  | None => "http://localhost:5000"
  end.

Definition emit (x : Effect) (e : Env) : Env :=
  mkEnv (NEXT_PUBLIC_API_URL e) (net e) (nfetch e) (log e ++ [x]) (timers e) (now e).

Definition count_fetch (e : Env) : Env :=
  mkEnv (NEXT_PUBLIC_API_URL e) (net e) (S (nfetch e)) (log e) (timers e) (now e).

Definition set_timers (ts : list JSValue) (e : Env) : Env :=
  mkEnv (NEXT_PUBLIC_API_URL e) (net e) (nfetch e) (log e) ts (now e).

(** A handler over component state [W]: it may throw, and state written
    before the throw stays written (unlike a transactional error monad). *)
Definition M (W A : Type) : Type := W * Env -> (Exn + A) * (W * Env).

Definition ret {W A} (a : A) : M W A := fun w => (inr a, w).

Definition bind {W A B} (c : M W A) (k : A -> M W B) : M W B :=
  fun w => match c w with
           | (inl e, w') => (inl e, w')
           | (inr a, w') => k a w'
           end.

Definition throw {W A} (e : Exn) : M W A := fun w => (inl e, w).

Definition lift {W A} (r : Exn + A) : M W A := fun w => (r, w).

(** [try { body } catch (err) { handler err }] *)
Definition try_catch {W A} (body : M W A) (handler : Exn -> M W A) : M W A :=
  fun w => match body w with
           | (inl e, w') => handler e w'
           | r => r
           end.

(** [try { body } finally { fin }]: [fin] always runs; the outcome of
    [body] is kept unless [fin] itself throws. *)
Definition finally {W A} (body : M W A) (fin : M W unit) : M W A :=
  fun w => match body w with
           | (r, w') => match fin w' with
                        | (inl e, w'') => (inl e, w'')
                        | (inr _, w'') => (r, w'')
                        end
           end.

Definition get_state {W} : M W W := fun w => (inr (fst w), w).
Definition modify {W} (f : W -> W) : M W unit := fun w => (inr tt, (f (fst w), snd w)).
Definition get_env {W} : M W Env := fun w => (inr (snd w), w).
Definition effect {W} (x : Effect) : M W unit := fun w => (inr tt, (fst w, emit x (snd w))).

(** [await fetch(url, {method})]: logged, counted, answered by the oracle. *)
Definition fetch {W} (m : Method) (path : string) (body : Body)
  : M W (bool * option JSValue) :=
  fun w =>
    let e := snd w in
    let e' := count_fetch (emit (EFetch m (API_BASE_URL e +:+ path) body) e) in
    match net e (nfetch e) with
    | FetchRejected => (inl (TypeError "Failed to fetch"), (fst w, e'))
    | FetchResponse ok body => (inr (ok, body), (fst w, e'))
    end.

(** [await response.json()] *)
Definition response_json {W} (r : bool * option JSValue) : M W JSValue :=
  match snd r with
  | Some v => ret v
  | None => throw (SyntaxError "Unexpected token in JSON")
  end.

Definition when {W} (b : bool) (c : M W unit) : M W unit := if b then c else ret tt.

(** [setTimeout(() => onComplete(memeId), ms)] *)
Definition set_timeout {W} (ms : Z) (memeId : JSValue) : M W unit :=
  fun w =>
    let e := emit (ESetTimeout ms memeId) (snd w) in
    (inr tt, (fst w, set_timers (timers e ++ [memeId]) e)).

(** A component reads and writes its own [useState] cells inside the
    state of the tree it is mounted in. *)
Record Lens (W S : Type) : Type := mkLens {
  view : W -> S;
  over : (S -> S) -> W -> W
}.
Arguments mkLens {W S} _ _.
Arguments view {W S} _ _.
Arguments over {W S} _ _ _.

Definition read {W S} (L : Lens W S) : M W S := fun w => (inr (view L (fst w)), w).
Definition update {W S} (L : Lens W S) (f : S -> S) : M W unit := modify (over L f).

End World.
Export World.

Declare Scope js_scope.
Delimit Scope js_scope with js.
Notation "x <- c1 ;; c2" := (bind c1 (fun x => c2))
  (at level 100, c1 at next level, right associativity) : js_scope.
Notation "c1 ;; c2" := (bind c1 (fun _ => c2))
  (at level 100, right associativity) : js_scope.
Open Scope js_scope.

(* ===================================================================== *)
(** ** components/upload-section.tsx *)
(* ===================================================================== *)

Module UploadSection.

Record File : Type := mkFile { name : string; type : string }.

Record State : Type := mkState {
  isLoading : bool;
  error : option string;       (* string | null *)
  fileInputRef : bool          (* [fileInputRef.current] is set *)
}.

Definition init : State := mkState false None true.

Section Component.
Context {W : Type} (L : Lens W State).
Context (onUploadSuccess : JSValue -> JSValue -> M W unit) (userId : string).

Definition setIsLoading (b : bool) : M W unit :=
  update L (fun s => mkState b (error s) (fileInputRef s)).

Definition setError (e : option string) : M W unit :=
  update L (fun s => mkState (isLoading s) e (fileInputRef s)).

Definition handleFileUpload (file : File) : M W unit :=
  if negb (String.prefix "image/" (type file)) then
    setError (Some "Please select an image file")
  else
    setIsLoading true ;;
    setError None ;;
    finally
      (try_catch
         (response <- fetch POST "/upload"
                        (FormData [("file", name file); ("user_id", userId)]) ;;
          (if negb (fst response) then throw (Error "Upload failed") else ret tt) ;;
          data <- response_json response ;;
          meme_id <- lift (get_prop data "meme_id") ;;
          image_url <- lift (get_prop data "image_url") ;;
          onUploadSuccess meme_id image_url ;;
          s <- read L ;;
          when (fileInputRef s) (effect EClearFileInput))
         (fun err =>
            setError (Some "Failed to upload. Please try again.") ;;
            effect (EConsoleError "" err)))
      (setIsLoading false).

(** [handleDragAndDrop] and the input's [onChange]: the first file, if any. *)
Definition handleDragAndDrop (files : list File) : M W unit :=
  match files with
  | f :: _ => handleFileUpload f
  | [] => ret tt
  end.

End Component.
End UploadSection.

(* ===================================================================== *)
(** ** components/meme-gallery.tsx *)
(* ===================================================================== *)

Module MemeGallery.

Record Meme : Type := mkMeme {
  id : JSValue;
  image_url : JSValue;
  status : string;
  created_at : Z
}.

Record State : Type := mkState {
  generatingId : JSValue;      (* string | null *)
  exportingId : JSValue        (* string | null *)
}.

Definition init : State := mkState JNull JNull.

Section Component.
Context {W : Type} (L : Lens W State).

Definition setGeneratingId (v : JSValue) : M W unit :=
  update L (fun s => mkState v (exportingId s)).

Definition setExportingId (v : JSValue) : M W unit :=
  update L (fun s => mkState (generatingId s) v).

Definition handleGenerate3D (memeId : JSValue) : M W unit :=
  setGeneratingId memeId ;;
  finally
    (try_catch
       (response <- fetch POST ("/generate-3d/" +:+ to_string memeId) NoBody ;;
        if fst response then
          data <- response_json response ;;
          effect (EConsoleLog "3D generation started:" data)
        else ret tt)
       (fun err => effect (EConsoleError "Failed to generate 3D:" err)))
    (setGeneratingId JNull).

Definition handleExport (memeId : JSValue) : M W unit :=
  setExportingId memeId ;;
  finally
    (try_catch
       (response <- fetch POST ("/export/" +:+ to_string memeId)
                      (JsonBody (JObj [("format", JStr "gif")])) ;;
        if fst response then
          data <- response_json response ;;
          url <- lift (get_prop data "url") ;;
          effect (EWindowOpen url)
        else ret tt)
       (fun err => effect (EConsoleError "Failed to export:" err)))
    (setExportingId JNull).

End Component.

(** The [disabled] attributes of the two buttons of a card. *)
Definition generate_disabled (s : State) (m : Meme) : bool :=
  strict_eq (generatingId s) (id m) || String.eqb (status m) "processing".

Definition export_disabled (s : State) (m : Meme) : bool :=
  strict_eq (exportingId s) (id m).

End MemeGallery.

(* ===================================================================== *)
(** ** components/trending-section.tsx *)
(* ===================================================================== *)

Module TrendingSection.

Record State : Type := mkState {
  trends : JSValue;            (* declared Trend[], fed from [any] *)
  isLoading : bool;
  selectedCategory : string
}.

Definition init : State := mkState (JArr []) true "memes".

Definition categories : list string := ["memes"; "news"; "pop_culture"; "music"].

Section Component.
Context {W : Type} (L : Lens W State).

Definition setTrends (v : JSValue) : M W unit :=
  update L (fun s => mkState v (isLoading s) (selectedCategory s)).

Definition setIsLoading (b : bool) : M W unit :=
  update L (fun s => mkState (trends s) b (selectedCategory s)).

Definition setSelectedCategory (c : string) : M W unit :=
  update L (fun s => mkState (trends s) (isLoading s) c).

Definition fetchTrending : M W unit :=
  s <- read L ;;
  setIsLoading true ;;
  finally
    (try_catch
       (response <- fetch GET ("/trending?category=" +:+ selectedCategory s) NoBody ;;
        data <- response_json response ;;
        t <- lift (get_prop data "trends") ;;
        setTrends (js_or t (JArr [])))
       (fun err =>
          effect (EConsoleError "Failed to fetch trending:" err) ;;
          setTrends (JArr [])))
    (setIsLoading false).

(** The effect with dependency [selectedCategory]: it runs on mount ... *)
Definition mount : M W unit := fetchTrending.

(** ... and after a click that changes the category. *)
Definition clickCategory (c : string) : M W unit :=
  s <- read L ;;
  if String.eqb c (selectedCategory s) then ret tt
  else setSelectedCategory c ;; fetchTrending.

End Component.

(** What the list part of the render needs: [trends.map] exists. *)
Definition list_renders (s : State) : bool := isArray (trends s).

End TrendingSection.

(* ===================================================================== *)
(** ** components/processing-modal.tsx *)
(* ===================================================================== *)

Module ProcessingModal.

Record State : Type := mkState {
  step : Z;
  isComplete : bool;
  interval : bool              (* the interval of the current effect is live *)
}.

Definition steps : list string :=
  [ "Uploading meme...";
    "Analyzing segments...";
    "Generating depth maps...";
    "Creating 3D mesh...";
    "Processing complete!" ].

(** State of a freshly mounted modal, after its effect has started the
    interval. *)
Definition init : State := mkState 0 false true.

Definition restart (s : State) : State := mkState (step s) (isComplete s) true.

Section Component.
Context {W : Type} (L : Lens W State) (memeId : JSValue).

Definition setIsComplete (b : bool) : M W unit :=
  update L (fun s => mkState (step s) b (interval s)).

Definition clearInterval : M W unit :=
  update L (fun s => mkState (step s) (isComplete s) false).

(** The updater passed to [setStep] by the interval callback. *)
Definition tick : M W unit :=
  s <- read L ;;
  if negb (interval s) then ret tt
  else if (Z.of_nat (length steps) - 1 <=? step s)%Z then
    setIsComplete true ;;
    clearInterval ;;
    set_timeout 2000 memeId
  else
    update L (fun s => mkState (step s + 1) (isComplete s) (interval s)).

(** The effect runs again when [memeId] or [onComplete] changes: the
    cleanup clears the old interval and a new one is started; [step] and
    [isComplete] are kept. *)
Definition rerun : M W unit := update L restart.

End Component.

(** Events the mounted modal reacts to.  [StageCompleted] is a stage of
    the back end finishing: the component subscribes to nothing of the
    kind (it issues no request and installs no listener), so it has no
    handler for it. *)
Inductive Event : Type :=
| Tick
| Rerun
| StageCompleted (stage : string).

Definition self : Lens State State := mkLens (fun s => s) (fun f s => f s).

Definition handle (memeId : JSValue) (ev : Event) (w : State * Env) : State * Env :=
  match ev with
  | Tick => snd (tick self memeId w)
  | Rerun => snd (rerun self w)
  | StageCompleted _ => w
  end.

Definition run (memeId : JSValue) (evs : list Event) (w : State * Env) : State * Env :=
  fold_left (fun w ev => handle memeId ev w) evs w.

Definition is_tick (ev : Event) : bool :=
  match ev with Tick => true | _ => false end.

Definition is_completion (ev : Event) : bool :=
  match ev with StageCompleted _ => true | _ => false end.

Definition count_events (f : Event -> bool) (evs : list Event) : Z :=
  Z.of_nat (length (List.filter f evs)).

(** The step stays inside the list of stages, and the interval is live
    as long as the last stage has not been reached. *)
Definition modal_inv (s : State) : Prop :=
  (0 <= step s <= 4)%Z /\ ((step s < 4)%Z -> interval s = true).

(** The stage shown with the spinner. *)
Definition current_stage (s : State) : option string := steps !! Z.to_nat (step s).

End ProcessingModal.

(* ===================================================================== *)
(** ** app/page.tsx *)
(* ===================================================================== *)

Module Home.

Record State : Type := mkState {
  userId : string;
  memes : list MemeGallery.Meme;
  trending : list JSValue;
  isProcessing : bool;
  currentMemeId : JSValue      (* string | null *)
}.

(** The whole tree: [Home] and the components it renders.  The gallery
    is rendered only when there are memes, the modal only while
    [isProcessing && currentMemeId]. *)
Record App : Type := mkApp {
  home : State;
  upload : UploadSection.State;
  gallery : option MemeGallery.State;
  trendingSection : TrendingSection.State;
  modal : option ProcessingModal.State
}.

Definition init (uid : string) : App :=
  mkApp (mkState uid [] [] false JNull)
        UploadSection.init None TrendingSection.init None.

Definition homeL : Lens App State :=
  mkLens home
    (fun f a => mkApp (f (home a)) (upload a) (gallery a) (trendingSection a) (modal a)).

Definition uploadL : Lens App UploadSection.State :=
  mkLens upload
    (fun f a => mkApp (home a) (f (upload a)) (gallery a) (trendingSection a) (modal a)).

Definition galleryL : Lens App MemeGallery.State :=
  mkLens (fun a => default MemeGallery.init (gallery a))
    (fun f a => mkApp (home a) (upload a) (f <$> gallery a) (trendingSection a) (modal a)).

Definition trendingL : Lens App TrendingSection.State :=
  mkLens trendingSection
    (fun f a => mkApp (home a) (upload a) (gallery a) (f (trendingSection a)) (modal a)).

Definition modalL : Lens App ProcessingModal.State :=
  mkLens (fun a => default ProcessingModal.init (modal a))
    (fun f a => mkApp (home a) (upload a) (gallery a) (trendingSection a) (f <$> modal a)).

Definition handleUploadSuccess (memeId imageUrl : JSValue) : M App unit :=
  e <- get_env ;;
  update homeL (fun s =>
    mkState (userId s)
            (MemeGallery.mkMeme memeId imageUrl "processing" (now e) :: memes s)
            (trending s) (isProcessing s) (currentMemeId s)) ;;
  update homeL (fun s =>
    mkState (userId s) (memes s) (trending s) true (currentMemeId s)) ;;
  update homeL (fun s =>
    mkState (userId s) (memes s) (trending s) (isProcessing s) memeId).

Definition handleProcessingComplete (memeId : JSValue) : M App unit :=
  update homeL (fun s =>
    mkState (userId s) (memes s) (trending s) false (currentMemeId s)) ;;
  update homeL (fun s =>
    mkState (userId s) (memes s) (trending s) (isProcessing s) JNull).

(** What a render of [Home] commits: conditional children are mounted or
    unmounted; a modal that stays mounted gets a new [onComplete] closure
    ([handleProcessingComplete] is rebuilt by every render), which re-runs
    its effect. *)
Definition commit (a : App) : App :=
  let g := match memes (home a), gallery a with
           | [], _ => None
           | _ :: _, None => Some MemeGallery.init
           | _ :: _, Some s => Some s
           end in
  let visible := isProcessing (home a) && truthy (currentMemeId (home a)) in
  let m := if visible then
             match modal a with
             | None => Some ProcessingModal.init
             | Some s => Some (ProcessingModal.restart s)
             end
           else None in
  mkApp (home a) (upload a) g (trendingSection a) m.

(** The props handed to the children.  Writing [Home]'s cells makes
    [Home] render again. *)
Definition onUploadSuccess (memeId imageUrl : JSValue) : M App unit :=
  handleUploadSuccess memeId imageUrl ;; modify commit.

Definition onComplete (memeId : JSValue) : M App unit :=
  handleProcessingComplete memeId ;; modify commit.

Inductive Event : Type :=
| PageLoad                                   (* first render: effects run *)
| SelectFile (files : list UploadSection.File)
| DropFiles (files : list UploadSection.File)
| ClickCategory (c : string)
| ClickGenerate3D (i : nat)                  (* button of the i-th card *)
| ClickExport (i : nat)
| IntervalTick
| TimeoutFires.

Definition handler (ev : Event) : M App unit :=
  match ev with
  | PageLoad => TrendingSection.mount trendingL
  | SelectFile files | DropFiles files =>
      a <- get_state ;;
      UploadSection.handleDragAndDrop uploadL onUploadSuccess (userId (home a)) files
  | ClickCategory c =>
      if bool_decide (c ∈ TrendingSection.categories)
      then TrendingSection.clickCategory trendingL c else ret tt
  | ClickGenerate3D i =>
      a <- get_state ;;
      match gallery a, memes (home a) !! i with
      | Some g, Some m =>
          if MemeGallery.generate_disabled g m then ret tt
          else MemeGallery.handleGenerate3D galleryL (MemeGallery.id m)
      | _, _ => ret tt
      end
  | ClickExport i =>
      a <- get_state ;;
      match gallery a, memes (home a) !! i with
      | Some g, Some m =>
          if MemeGallery.export_disabled g m then ret tt
          else MemeGallery.handleExport galleryL (MemeGallery.id m)
      | _, _ => ret tt
      end
  | IntervalTick =>
      a <- get_state ;;
      match modal a with
      | Some _ => ProcessingModal.tick modalL (currentMemeId (home a))
      | None => ret tt
      end
  | TimeoutFires =>
      e <- get_env ;;
      match timers e with
      | memeId :: rest =>
          (fun w => (inr tt, (fst w, set_timers rest (snd w)))) ;;
          onComplete memeId
      | [] => ret tt
      end
  end.

(** One event.  A handler is run to its end, awaits included, before the
    next event is taken: the states between the awaits of a handler (with
    [isLoading], [generatingId] or [exportingId] set) are not states of
    [run].  What depends on them is stated for one invocation, with the
    state it starts from as a hypothesis. *)
Definition step (w : App * Env) (ev : Event) : App * Env := snd (handler ev w).

Definition run (evs : list Event) (w : App * Env) : App * Env := fold_left step evs w.

(** Events handled by the trending section, as opposed to those of the
    upload, generation, export and progress display. *)
Definition trending_event (ev : Event) : bool :=
  match ev with
  | PageLoad | ClickCategory _ => true
  | _ => false
  end.

Definition set_trending (ts : TrendingSection.State) (a : App) : App :=
  over trendingL (fun _ => ts) a.

(** Requests in the log, oldest first. *)
Definition requests (e : Env) : list string :=
  omap (fun x => match x with EFetch _ url _ => Some url | _ => None end) (log e).

End Home.

(* ===================================================================== *)
(** ** PipelineOrchestrator (specification, sections 3 and 4.6) *)
(* ===================================================================== *)

Module Orchestrator.

Inductive Stage : Type := Segmentation | Reconstruction | Composition | Export.

Inductive Status : Type :=
| Uploaded | Segmented | Reconstructed | Composed | Exported
| Failed (stage : Stage).

Definition Artifact : Type := nat.       (* opaque reference into the blob store *)

Inductive ErrorKind : Type :=
| ValidationError | ReconstructionError | RenderError | EncodingError
| ExternalServiceError.

(** Modelled from the spec: the per-project record of the orchestrator,
    whose code is not part of the front end.  [results] holds the artifact
    each completed stage produced; [mesh_assets] is the append-only
    MeshAsset store of the project. *)
Record Project : Type := mkProject {
  status : Status;
  results : Stage -> option Artifact;
  mesh_assets : list Artifact
}.

Definition stage_index (s : Stage) : nat :=
  match s with
  | Segmentation => 0 | Reconstruction => 1 | Composition => 2 | Export => 3
  end.

(** The status a stage leaves behind when it completes. *)
Definition completed (s : Stage) : Status :=
  match s with
  | Segmentation => Segmented | Reconstruction => Reconstructed
  | Composition => Composed | Export => Exported
  end.

(** Number of stages already completed.  A failed project stands at the
    state preceding the failed stage. *)
Definition progress (st : Status) : nat :=
  match st with
  | Uploaded => 0 | Segmented => 1 | Reconstructed => 2 | Composed => 3
  | Exported => 4
  | Failed s => stage_index s
  end.

Definition passed (p : Project) (s : Stage) : bool :=
  (stage_index s <? progress (status p))%nat.

Definition stage_eqb (a b : Stage) : bool := (stage_index a =? stage_index b)%nat.

Definition new_project : Project := mkProject Uploaded (fun _ => None) [].

Inductive Outcome : Type :=
| Completed (a : Artifact)               (* the stage ran and produced [a] *)
| Existing (a : option Artifact)         (* no-op: the result already there *)
| StageFailed (e : ErrorKind)
| OutOfOrder.                            (* an earlier stage has not completed *)

(** Modelled from the spec: [enqueue_stage], run to completion.  [exec] is
    the stage's unit of work.  A stage the project has already passed is
    not executed again; the next stage (or the failed stage, on retry) is
    executed; any later stage is refused. *)
Definition enqueue_stage (exec : Stage -> Project -> ErrorKind + Artifact)
    (s : Stage) (p : Project) : Project * Outcome :=
  if passed p s then (p, Existing (results p s))
  else if (stage_index s =? progress (status p))%nat then
    match exec s p with
    | inr a =>
        (mkProject (completed s)
           (fun s' => if stage_eqb s' s then Some a else results p s')
           (match s with
            | Reconstruction => mesh_assets p ++ [a]
            | _ => mesh_assets p
            end),
         Completed a)
    | inl e => (mkProject (Failed s) (results p) (mesh_assets p), StageFailed e)
    end
  else (p, OutOfOrder).

(** A history of requests, each with the worker that served it. *)
Definition Request : Type := (Stage * (Stage -> Project -> ErrorKind + Artifact))%type.

Definition run (reqs : list Request) (p : Project) : Project :=
  fold_left (fun p r => fst (enqueue_stage (snd r) (fst r) p)) reqs p.

#[global] Instance Stage_eq_dec : EqDecision Stage.
Proof. solve_decision. Defined.

(** The answers given along a history, oldest first. *)
Fixpoint outcomes (reqs : list Request) (p : Project) : list (Stage * Outcome) :=
  match reqs with
  | [] => []
  | r :: rest =>
      let po := enqueue_stage (snd r) (fst r) p in
      (fst r, snd po) :: outcomes rest (fst po)
  end.

(** The artifacts that the executions of stage [s] produced in a
    history, oldest first. *)
Definition produced (s : Stage) (os : list (Stage * Outcome)) : list Artifact :=
  omap (fun x => match x with
                 | (s', Completed a) => if bool_decide (s' = s) then Some a else None
                 | _ => None
                 end) os.

(** What ties a project to the history that led to it: a stage it has
    passed was executed to completion exactly once and its artifact is the
    recorded result; a stage it has not passed never completed; the
    MeshAsset store holds what the reconstructions produced. *)
Definition history_ok (p : Project) (os : list (Stage * Outcome)) : Prop :=
  (forall s, passed p s = true ->
     exists a, produced s os = [a] /\ results p s = Some a) /\
  (forall s, passed p s = false -> produced s os = []) /\
  mesh_assets p = produced Reconstruction os.

End Orchestrator.

(* ===================================================================== *)
(** ** SceneGraph (specification, sections 3, 4.2 and 9) *)
(* ===================================================================== *)

Module SceneGraph.

(** Modelled from the spec: an arena of scene objects with parent indices
    (section 9); the scene-graph code is not part of the front end.  Local
    transforms play no part in [attach] and are left out. *)
Record SceneObject : Type := mkObject {
  mesh : nat;                  (* MeshAsset reference *)
  parent : option nat          (* index of the parent in the arena *)
}.

Abbreviation Graph := (list SceneObject).

Inductive Error : Type := CycleError | ValidationError.

Definition parent_of (g : Graph) (x : nat) : option nat :=
  match g !! x with
  | Some o => parent o
  | None => None
  end.

(** [x] has parent [y]. *)
Definition child_of (g : Graph) (x y : nat) : Prop := parent_of g x = Some y.

(** [x] is [target] or one of its descendants: walking up from [x]
    meets [target] within [fuel] steps. *)
Fixpoint reaches_up (g : Graph) (fuel : nat) (x target : nat) : bool :=
  if (x =? target)%nat then true
  else match fuel with
       | 0 => false
       | S fuel' =>
           match parent_of g x with
           | Some y => reaches_up g fuel' y target
           | None => false
           end
       end.

Definition set_parent (g : Graph) (obj : nat) (p : option nat) : Graph :=
  match g !! obj with
  | Some o => <[obj := mkObject (mesh o) p]> g
  | None => g
  end.

(** Modelled from the spec: [attach(object, parent?)].  The ancestry of
    the proposed parent is validated before anything is written; on an
    error the graph is returned as it was. *)
Definition attach (g : Graph) (obj : nat) (p : option nat) : Graph * option Error :=
  if negb (obj <? length g)%nat then (g, Some ValidationError)
  else match p with
       | None => (set_parent g obj None, None)
       | Some q =>
           if negb (q <? length g)%nat then (g, Some ValidationError)
           else if reaches_up g (length g) q obj then (g, Some CycleError)
           else (set_parent g obj (Some q), None)
       end.

Definition detach (g : Graph) (obj : nat) : Graph * option Error := attach g obj None.

(** No object is its own ancestor. *)
Definition acyclic (g : Graph) : Prop := forall x, ~ tc (child_of g) x x.

(** A sufficient, checkable condition: every parent sits at a smaller
    index than its child. *)
Definition parents_below (g : Graph) : bool :=
  forallb (fun x => match parent_of g x with
                    | Some y => (y <? x)%nat
                    | None => true
                    end)
          (seq 0 (length g)).

End SceneGraph.

(* ===================================================================== *)
(** ** Renderer and FrameEncoder (specification, sections 4.4 and 4.5) *)
(* ===================================================================== *)

Module Renderer.

(** A camera on an orbit, in the polar form of the trajectory
    specification: it looks at [pivot] from [radius] away, [elevation]
    above it, at [angle] degrees around it. *)
Record CameraPose : Type := mkPose {
  pivot : Q * Q * Q;
  radius : Q;
  elevation : Q;
  angle : Q
}.

Record Orbit : Type := mkOrbit {
  orbit_pivot : Q * Q * Q;
  orbit_radius : Q;
  orbit_height : Q;
  samples : nat
}.

Inductive Error : Type := RenderError.

(** The i-th of N evenly spaced samples of a 360 degree orbit. *)
Definition sample (o : Orbit) (i : nat) : CameraPose :=
  mkPose (orbit_pivot o) (orbit_radius o) (orbit_height o)
         (360 * inject_Z (Z.of_nat i) / inject_Z (Z.of_nat (samples o)))%Q.

Definition trajectory (o : Orbit) : list CameraPose :=
  sample o <$> seq 0 (samples o).

(** The camera sits on its target. *)
Definition degenerate (c : CameraPose) : bool :=
  Qeq_bool (radius c) 0 && Qeq_bool (elevation c) 0.

Section Render.
Context {Scene Frame : Type}.
(** Projection, depth-buffered rasterisation and shading of one frame;
    [None] when no geometry of the scene is visible from the pose. *)
Context (rasterize : Scene -> CameraPose -> option Frame).

Fixpoint render_poses (sc : Scene) (poses : list CameraPose) : Error + list Frame :=
  match poses with
  | [] => inr []
  | c :: rest =>
      if degenerate c then inl RenderError
      else match rasterize sc c with
           | None => inl RenderError
           | Some f =>
               match render_poses sc rest with
               | inr fs => inr (f :: fs)
               | inl e => inl e
               end
           end
  end.

(** Modelled from the spec: the Renderer on an orbit trajectory; its
    code is not part of the front end. *)
Definition render (sc : Scene) (o : Orbit) : Error + list Frame :=
  render_poses sc (trajectory o).

End Render.
End Renderer.

Module FrameEncoder.

Inductive Format : Type := LoopImage | Video.

Inductive Error : Type := EncodingError.

(** Metadata the artifact declares, and the presentation time of each
    frame it holds. *)
Record Artifact (Frame : Type) : Type := mkArtifact {
  format : Format;
  frame_rate : Q;
  frame_count : nat;
  duration : Q;                          (* seconds *)
  frames : list (Q * Frame)              (* timestamp, frame *)
}.
Arguments mkArtifact {Frame} _ _ _ _ _.
Arguments format {Frame} _.
Arguments frame_rate {Frame} _.
Arguments frame_count {Frame} _.
Arguments duration {Frame} _.
Arguments frames {Frame} _.

(** The encoder is append-only: it holds what was pushed so far. *)
Record Encoder (Frame : Type) : Type := mkEncoder {
  enc_format : Format;
  enc_fps : Q;
  pushed : nat;
  written : list (Q * Frame)
}.
Arguments mkEncoder {Frame} _ _ _ _.
Arguments enc_format {Frame} _.
Arguments enc_fps {Frame} _.
Arguments pushed {Frame} _.
Arguments written {Frame} _.

Section Encode.
Context {Frame : Type}.

Definition open (fmt : Format) (fps : Q) : Error + Encoder Frame :=
  if Qle_bool fps 0 then inl EncodingError
  else inr (mkEncoder fmt fps 0 []).

(** [timestamp_i = i / fps] *)
Definition push (e : Encoder Frame) (f : Frame) : Encoder Frame :=
  mkEncoder (enc_format e) (enc_fps e) (S (pushed e))
            (written e ++ [((inject_Z (Z.of_nat (pushed e)) / enc_fps e)%Q, f)]).

Definition finish (e : Encoder Frame) : Artifact Frame :=
  mkArtifact (enc_format e) (enc_fps e) (pushed e)
             (inject_Z (Z.of_nat (pushed e)) / enc_fps e)%Q
             (written e).

(** Modelled from the spec: the FrameEncoder fed one frame at a time; its
    code is not part of the front end. *)
Definition encode (fmt : Format) (fps : Q) (fs : list Frame) : Error + Artifact Frame :=
  match open fmt fps with
  | inl e => inl e
  | inr enc => inr (finish (fold_left push fs enc))
  end.

End Encode.
End FrameEncoder.

(* ===================================================================== *)
(** ** Concrete inputs used by the examples below *)
(* ===================================================================== *)

Module Examples.

Definition env0 (net : nat -> FetchResult) : Env := mkEnv None net 0 [] [] 0.

Definition png : UploadSection.File := UploadSection.mkFile "cat.png" "image/png".
Definition txt : UploadSection.File := UploadSection.mkFile "notes.txt" "text/plain".

Definition okUpload : FetchResult :=
  FetchResponse true
    (Some (JObj [("meme_id", JStr "m1"); ("image_url", JStr "/uploads/m1.png")])).

(** The first request is lost on the network; any later one would succeed. *)
Definition fails_once (k : nat) : FetchResult :=
  match k with
  | 0 => FetchRejected
  | S _ => okUpload
  end.

(** A server that answers every request, and whose trending body carries
    a string where the list is expected. *)
Definition trends_is_text (k : nat) : FetchResult :=
  FetchResponse true (Some (JObj [("trends", JStr "none")])).

Definition always_ok (k : nat) : FetchResult := okUpload.

(** A server that names the first upload m1 and every later one m2. *)
Definition two_uploads (k : nat) : FetchResult :=
  match k with
  | 0 => okUpload
  | S _ =>
      FetchResponse true
        (Some (JObj [("meme_id", JStr "m2"); ("image_url", JStr "/uploads/m2.png")]))
  end.

(** A second image is selected while the modal opened for the first is at
    its fourth stage. *)
Definition second_upload : list Home.Event :=
  [Home.SelectFile [png]; Home.IntervalTick; Home.IntervalTick; Home.IntervalTick;
   Home.SelectFile [png]].

Definition worker (n : nat)
  : Orchestrator.Stage -> Orchestrator.Project ->
    Orchestrator.ErrorKind + Orchestrator.Artifact :=
  fun _ _ => inr n.

Definition reconstructed : list Orchestrator.Request :=
  [(Orchestrator.Segmentation, worker 7); (Orchestrator.Reconstruction, worker 8)].

(** A chain: object 0 is the root, 1 hangs under 0, 2 under 1. *)
Definition chain3 : list SceneGraph.SceneObject :=
  [SceneGraph.mkObject 10 None;
   SceneGraph.mkObject 11 (Some 0);
   SceneGraph.mkObject 12 (Some 1)].

Definition orbit4 : Renderer.Orbit := Renderer.mkOrbit (0, 0, 0)%Q 2 1 4.

(** A stand-in rasteriser: the frame records the angle it was taken from. *)
Definition angle_frame (sc : unit) (c : Renderer.CameraPose) : option Q :=
  Some (Renderer.angle c).

End Examples.

(* ===================================================================== *)
(** ** components/header.tsx, and what [Home] renders *)
(* ===================================================================== *)

Module Header.

(** [s.slice(k)] for a non-negative [k]. *)
Fixpoint drop (k : nat) (s : string) : string :=
  match k, s with
  | S k', String _ s' => drop k' s'
  | _, _ => s
  end.

(** [s.slice(-n)] *)
Definition slice_last (n : nat) (s : string) : string :=
  drop (String.length s - n) s.

(** The badge of the header: [userId.slice(-6)]. *)
Definition badge (userId : string) : string := slice_last 6 userId.

End Header.

Module HomeView.

(** ["user-" + Math.random().toString(36).substr(2, 9)], where [r] is the
    string [Math.random().toString(36)] (a zero, a dot and the digits). *)
Definition newUserId (r : string) : string := "user-" +:+ String.substring 2 9 r.

Definition file_event (ev : Home.Event) : bool :=
  match ev with
  | Home.SelectFile _ | Home.DropFiles _ => true
  | _ => false
  end.

(** Every card of the gallery still says "processing". *)
Definition all_processing (a : Home.App) : Prop :=
  Forall (fun m => MemeGallery.status m = "processing") (Home.memes (Home.home a)).

(** What the last render left mounted: the gallery when there are memes
    (with no generation or export in flight), the modal while
    [isProcessing && currentMemeId]. *)
Definition mounted (a : Home.App) : Prop :=
  Home.gallery a =
    match Home.memes (Home.home a) with
    | [] => None
    | _ :: _ => Some MemeGallery.init
    end /\
  (is_Some (Home.modal a) <->
   Home.isProcessing (Home.home a) && truthy (Home.currentMemeId (Home.home a)) = true).

Definition is_request (x : Effect) : bool :=
  match x with
  | EFetch _ _ _ => true
  | _ => false
  end.

(** A request goes to the configured back end, and an upload form
    carries the file and the user id of the session. *)
Definition request_ok (base uid : string) (x : Effect) : Prop :=
  match x with
  | EFetch _ url body =>
      String.prefix base url = true /\
      match body with
      | FormData fs => exists n, fs = [("file", n); ("user_id", uid)]
      | _ => True
      end
  | _ => True
  end.

(** The states the page goes through, one per event. *)
Fixpoint states (evs : list Home.Event) (w : Home.App * Env) : list (Home.App * Env) :=
  match evs with
  | [] => []
  | ev :: rest => let w' := Home.step w ev in w' :: states rest w'
  end.

(** The stage index the page shows for the meme [memeId]: the step of the
    modal, when the modal is open for that meme. *)
Definition shown_for (memeId : JSValue) (w : Home.App * Env) : option Z :=
  if strict_eq (Home.currentMemeId (Home.home (fst w))) memeId
  then ProcessingModal.step <$> Home.modal (fst w)
  else None.

Definition is_rerun (ev : ProcessingModal.Event) : bool :=
  match ev with
  | ProcessingModal.Rerun => true
  | _ => false
  end.

End HomeView.

(* ===================================================================== *)
(** * Properties of the front end *)
(* ===================================================================== *)

Import Examples.

(** Symbolic execution of a handler: unfold the monad, then split on the
    innermost scrutinee that blocks reduction (the network answer, a
    property read, a flag). *)
Ltac unfold_js :=
  repeat progress unfold
    UploadSection.handleFileUpload, UploadSection.handleDragAndDrop,
    TrendingSection.fetchTrending, TrendingSection.mount, TrendingSection.clickCategory,
    MemeGallery.handleGenerate3D, MemeGallery.handleExport,
    ProcessingModal.tick, ProcessingModal.rerun,
    ProcessingModal.setIsComplete, ProcessingModal.clearInterval,
    UploadSection.setIsLoading, UploadSection.setError,
    TrendingSection.setTrends, TrendingSection.setIsLoading,
    TrendingSection.setSelectedCategory,
    MemeGallery.setGeneratingId, MemeGallery.setExportingId,
    Home.onUploadSuccess, Home.handleUploadSuccess,
    Home.onComplete, Home.handleProcessingComplete,
    bind, finally, try_catch, fetch, read, response_json, when, get_env, get_state,
    set_timeout, lift, update, modify, effect, ret, throw in *.

Ltac inner_case :=
  match goal with
  | |- context [match ?x with _ => _ end] =>
      lazymatch x with
      | context [match _ with _ => _ end] => fail
      | _ => destruct x eqn:?
      end
  end.

Ltac run_js := unfold_js; cbn; repeat (inner_case; cbn).

Ltac finish_js :=
  try reflexivity;
  repeat (match goal with H : ?x = _ |- context [?x] => rewrite H end; cbn);
  first [reflexivity | congruence].

Ltac norm_requests :=
  unfold Home.requests; cbn; rewrite ?omap_app; cbn; rewrite ?omap_app; cbn;
  rewrite ?app_nil_r.

(* --------------------------------------------------------------------- *)
(** ** Upload: rejection at the client boundary *)

(** C9.  A file whose MIME type does not start with "image/" is rejected
    by [handleFileUpload] before anything else happens: the error message
    becomes "Please select an image file", the environment is untouched
    (no request is issued, nothing is logged, no timer is set), the
    [onUploadSuccess] callback is not called whatever it is, and the
    loading flag, the memes of [Home] and every other component are left
    as they were. *)
Theorem handleFileUpload_rejects_non_image :
  forall (file : UploadSection.File) (cb : JSValue -> JSValue -> M Home.App unit)
         (uid : string) (a : Home.App) (e : Env),
    String.prefix "image/" (UploadSection.type file) = false ->
    let r := UploadSection.handleFileUpload Home.uploadL cb uid file (a, e) in
    let a' := fst (snd r) in
    let e' := snd (snd r) in
    fst r = inr tt /\
    UploadSection.error (Home.upload a') = Some "Please select an image file" /\
    e' = e /\
    UploadSection.isLoading (Home.upload a') = UploadSection.isLoading (Home.upload a) /\
    Home.memes (Home.home a') = Home.memes (Home.home a) /\
    Home.home a' = Home.home a /\ Home.gallery a' = Home.gallery a /\
    Home.modal a' = Home.modal a /\
    Home.trendingSection a' = Home.trendingSection a.
Proof.
  intros file cb uid a e Hty.
  unfold UploadSection.handleFileUpload. rewrite Hty. cbn.
  repeat split.
Qed.

Lemma handleFileUpload_rejects_non_image_witness :
  let r := UploadSection.handleFileUpload Home.uploadL Home.onUploadSuccess "user-1" txt
             (Home.init "user-1", env0 always_ok) in
  let a' := fst (snd r) in
  let e' := snd (snd r) in
  fst r = inr tt /\
  UploadSection.error (Home.upload a') = Some "Please select an image file" /\
  e' = env0 always_ok /\
  UploadSection.isLoading (Home.upload a') =
    UploadSection.isLoading (Home.upload (Home.init "user-1")) /\
  Home.memes (Home.home a') = Home.memes (Home.home (Home.init "user-1")) /\
  Home.home a' = Home.home (Home.init "user-1") /\
  Home.gallery a' = Home.gallery (Home.init "user-1") /\
  Home.modal a' = Home.modal (Home.init "user-1") /\
  Home.trendingSection a' = Home.trendingSection (Home.init "user-1").
Proof.
  apply (handleFileUpload_rejects_non_image txt Home.onUploadSuccess "user-1"
           (Home.init "user-1") (env0 always_ok)).
  reflexivity.
Defined.

(** The same through the user interface: choosing or dropping such a file
    changes nothing but the error message. *)
Lemma select_non_image uid e files :
  Home.step (Home.init uid, e) (Home.SelectFile (txt :: files)) =
    (Home.mkApp (Home.home (Home.init uid))
                (UploadSection.mkState false (Some "Please select an image file") true)
                None TrendingSection.init None, e).
Proof. reflexivity. Qed.

(* --------------------------------------------------------------------- *)
(** ** Trending: the state after a fetch *)

(** C10, as stated, fails.  When the body of the response carries a
    truthy value that is not an array under [trends] (here the string
    "none"), [data.trends || []] keeps that value: the state is not an
    array and the list cannot be rendered. *)
Lemma trends_not_always_array :
  let r := TrendingSection.fetchTrending Home.trendingL
             (Home.init "user-1", env0 trends_is_text) in
  let s' := Home.trendingSection (fst (snd r)) in
  TrendingSection.trends s' = JStr "none" /\
  isArray (TrendingSection.trends s') = false /\
  TrendingSection.list_renders s' = false /\
  TrendingSection.isLoading s' = false.
Proof. vm_compute. repeat split. Qed.

(** C10, amended.  After every trending fetch the loading flag is false
    and the trends state is truthy, hence neither undefined nor null.  It
    is the empty array when the request throws, when the body does not
    parse, when reading [trends] throws, and when the body has no trends
    field or a falsy one; otherwise it is the trends field as received.
    So the state is an array unless the body carried a truthy non-array
    trends field, which is stored unchanged. *)
Theorem fetchTrending_trends_state :
  forall (a : Home.App) (e : Env),
    let r := TrendingSection.fetchTrending Home.trendingL (a, e) in
    let s' := Home.trendingSection (fst (snd r)) in
    let t := TrendingSection.trends s' in
    TrendingSection.isLoading s' = false /\
    truthy t = true /\ t <> JUndefined /\ t <> JNull /\
    (net e (nfetch e) = FetchRejected -> t = JArr []) /\
    (forall ok, net e (nfetch e) = FetchResponse ok None -> t = JArr []) /\
    (forall ok data ex,
        net e (nfetch e) = FetchResponse ok (Some data) ->
        get_prop data "trends" = inl ex -> t = JArr []) /\
    (forall ok data v,
        net e (nfetch e) = FetchResponse ok (Some data) ->
        get_prop data "trends" = inr v ->
        t = if truthy v then v else JArr []) /\
    (isArray t = true \/
     exists ok data,
       net e (nfetch e) = FetchResponse ok (Some data) /\
       get_prop data "trends" = inr t).
Proof.
  intros a e. unfold_js. cbn.
  destruct (net e (nfetch e)) as [|ok [data|]] eqn:Hnet; cbn;
    [| destruct (get_prop data "trends") as [ex|v] eqn:Hp; cbn;
       [| unfold js_or; destruct (truthy v) eqn:Hv; cbn ] |].
  all: split_and!; intros; simplify_eq.
  all: try match goal with
           | H1 : get_prop ?d ?k = _, H2 : get_prop ?d ?k = _ |- _ =>
               rewrite H1 in H2; simplify_eq
           end.
  all: rewrite ?Hv; try congruence; try reflexivity.
  all: try (intros ->; discriminate).
  all: first [ left; reflexivity | right; eauto ].
Qed.

(* --------------------------------------------------------------------- *)
(** ** No retry in the handlers *)

(** C5, as stated, fails on the calls the front end makes.  The first
    upload request is lost and every later request would succeed; the
    handler issues exactly one request, sets no timer, and surfaces the
    failure at once. *)
Lemma upload_not_retried :
  let w := Home.run [Home.SelectFile [png]] (Home.init "user-1", env0 fails_once) in
  nfetch (snd w) = 1 /\
  Home.requests (snd w) = ["http://localhost:5000/upload"] /\
  timers (snd w) = [] /\
  UploadSection.error (Home.upload (fst w)) = Some "Failed to upload. Please try again." /\
  UploadSection.isLoading (Home.upload (fst w)) = false /\
  Home.memes (Home.home (fst w)) = [].
Proof. vm_compute. repeat split. Qed.

(** C5, amended.  Each of the four handlers that call the back end
    (upload of an image file, trending fetch, 3D generation, export)
    issues exactly one request per invocation, whatever the answer, and
    schedules no timer: there is no retry and no backoff.  A failed
    upload (rejected, not ok, or unparsable) sets the error message
    "Failed to upload. Please try again.", clears the loading flag and
    leaves [Home] as it was; a failed trending fetch sets the trends to
    the empty array and clears the loading flag. *)
Theorem handlers_fetch_once :
  forall (a : Home.App) (e : Env),
    (forall file uid,
        String.prefix "image/" (UploadSection.type file) = true ->
        let w := snd (UploadSection.handleFileUpload
                        Home.uploadL Home.onUploadSuccess uid file (a, e)) in
        Home.requests (snd w) = Home.requests e ++ [API_BASE_URL e +:+ "/upload"] /\
        nfetch (snd w) = S (nfetch e) /\
        timers (snd w) = timers e /\
        UploadSection.isLoading (Home.upload (fst w)) = false /\
        ((forall data, net e (nfetch e) <> FetchResponse true (Some data)) ->
         UploadSection.error (Home.upload (fst w)) =
           Some "Failed to upload. Please try again." /\
         Home.home (fst w) = Home.home a)) /\
    (let w := snd (TrendingSection.fetchTrending Home.trendingL (a, e)) in
     Home.requests (snd w) =
       Home.requests e ++
         [API_BASE_URL e +:+ "/trending?category="
            +:+ TrendingSection.selectedCategory (Home.trendingSection a)] /\
     nfetch (snd w) = S (nfetch e) /\
     timers (snd w) = timers e /\
     TrendingSection.isLoading (Home.trendingSection (fst w)) = false /\
     ((forall ok data, net e (nfetch e) <> FetchResponse ok (Some data)) ->
      TrendingSection.trends (Home.trendingSection (fst w)) = JArr [])) /\
    (forall memeId,
        let w := snd (MemeGallery.handleGenerate3D Home.galleryL memeId (a, e)) in
        Home.requests (snd w) =
          Home.requests e ++ [API_BASE_URL e +:+ "/generate-3d/" +:+ to_string memeId] /\
        nfetch (snd w) = S (nfetch e) /\
        timers (snd w) = timers e) /\
    (forall memeId,
        let w := snd (MemeGallery.handleExport Home.galleryL memeId (a, e)) in
        Home.requests (snd w) =
          Home.requests e ++ [API_BASE_URL e +:+ "/export/" +:+ to_string memeId] /\
        nfetch (snd w) = S (nfetch e) /\
        timers (snd w) = timers e).
Proof.
  intros a e. destruct a as [h u g t m]. split_and!.
  - intros file uid Hty. unfold UploadSection.handleFileUpload. rewrite Hty. cbn [negb].
    run_js; norm_requests; split_and!; try reflexivity.
    all: intros Hf; try solve [exfalso; eapply Hf; reflexivity].
    all: try solve [ match goal with
                     | H : negb ?b = false |- _ =>
                         destruct b; [exfalso; eapply Hf; reflexivity | discriminate]
                     end ].
    all: split; reflexivity.
  - run_js; norm_requests; split_and!; try reflexivity.
    all: intros Hf; exfalso; eapply Hf; reflexivity.
  - intros memeId. destruct g; run_js; norm_requests; split_and!; reflexivity.
  - intros memeId. destruct g; run_js; norm_requests; split_and!; reflexivity.
Qed.

(* --------------------------------------------------------------------- *)
(** ** Trending and the pipeline *)

(** C7, as stated, fails.  The trending request is the first request of
    a page load: it goes out before the project "m1" is even uploaded, and
    no export has been requested at all. *)
Lemma trending_requested_before_export :
  let w := Home.run [Home.PageLoad; Home.SelectFile [png]]
             (Home.init "user-1", env0 always_ok) in
  Home.requests (snd w) =
    ["http://localhost:5000/trending?category=memes"; "http://localhost:5000/upload"] /\
  (MemeGallery.id <$> Home.memes (Home.home (fst w))) = [JStr "m1"] /\
  (MemeGallery.status <$> Home.memes (Home.home (fst w))) = ["processing"].
Proof. vm_compute. repeat split. Qed.

(** C7, amended.  The trending service is requested when the page loads,
    whatever the projects are, and again when the category changes; these
    events touch the trending section only.  Every other event (file
    selection or drop, 3D generation, export, progress tick, completion
    timeout) runs the same way whatever the trending section holds, and
    leaves it as it is: no handler of the pipeline reads, or waits for, a
    trending answer. *)
Theorem trending_decoupled_from_pipeline :
  forall (a : Home.App) (e : Env),
    Home.requests (snd (Home.step (a, e) Home.PageLoad)) =
      Home.requests e ++
        [API_BASE_URL e +:+ "/trending?category="
           +:+ TrendingSection.selectedCategory (Home.trendingSection a)] /\
    (forall ev, Home.trending_event ev = true ->
       let a' := fst (Home.step (a, e) ev) in
       Home.home a' = Home.home a /\ Home.upload a' = Home.upload a /\
       Home.gallery a' = Home.gallery a /\ Home.modal a' = Home.modal a) /\
    (forall ev ts, Home.trending_event ev = false ->
       Home.step (Home.set_trending ts a, e) ev =
         (Home.set_trending ts (fst (Home.step (a, e) ev)),
          snd (Home.step (a, e) ev))).
Proof.
  intros a e. split_and!.
  - unfold Home.step, Home.handler. run_js; norm_requests; reflexivity.
  - intros ev Hev. destruct ev; try discriminate;
      unfold Home.step, Home.handler; run_js; repeat split.
  - intros ev ts Hev. destruct a as [h u [g|] t [m|]];
      destruct ev; try discriminate;
      unfold Home.step, Home.handler, Home.set_trending; run_js; finish_js.
Qed.

(* --------------------------------------------------------------------- *)
(** ** The processing modal *)

Section ModalFacts.
Import ProcessingModal.
Context (memeId : JSValue).

Lemma run_snoc evs ev w :
  run memeId (evs ++ [ev]) w = handle memeId ev (run memeId evs w).
Proof. unfold run. rewrite fold_left_app. reflexivity. Qed.

(** One event, case by case. *)
Lemma handle_cases ev s e :
  let s' := fst (handle memeId ev (s, e)) in
  match ev with
  | Tick =>
      if interval s then
        if (4 <=? step s)%Z
        then step s' = step s /\ interval s' = false /\ isComplete s' = true
        else step s' = (step s + 1)%Z /\ interval s' = true /\ isComplete s' = isComplete s
      else s' = s
  | Rerun => step s' = step s /\ interval s' = true /\ isComplete s' = isComplete s
  | StageCompleted _ => s' = s
  end.
Proof.
  destruct ev; cbn; unfold_js; unfold restart; cbn.
  - destruct (interval s) eqn:Hi; cbn; [|reflexivity].
    change (Z.of_nat 5 - 1)%Z with 4%Z.
    destruct (4 <=? step s)%Z eqn:Hs; cbn; auto.
  - auto.
  - reflexivity.
Qed.

(** The modal's requests: none. *)
Lemma handle_env ev s e :
  let e' := snd (handle memeId ev (s, e)) in
  nfetch e' = nfetch e /\ Home.requests e' = Home.requests e.
Proof.
  destruct ev; cbn; unfold_js; unfold restart; cbn; auto.
  change (Z.of_nat 5 - 1)%Z with 4%Z.
  destruct (interval s); cbn; [destruct (4 <=? step s)%Z; cbn|]; auto.
  split; [reflexivity|]. norm_requests. reflexivity.
Qed.

Lemma handle_inv ev s e : modal_inv s -> modal_inv (fst (handle memeId ev (s, e))).
Proof.
  intros [Hr Hi]. pose proof (handle_cases ev s e) as H. cbn zeta in H.
  destruct ev.
  - revert H. destruct (interval s) eqn:Hint.
    + destruct (4 <=? step s)%Z eqn:Hs; intros (H1 & H2 & H3).
      * split; [lia|]. intros. apply Z.leb_le in Hs. lia.
      * apply Z.leb_gt in Hs. split; [lia|]. auto.
    + intros ->. split; auto. rewrite Hint. exact Hi.
  - destruct H as (H1 & H2 & H3). split; [lia|auto].
  - rewrite H. split; auto.
Qed.

Lemma run_inv evs e0 : modal_inv (fst (run memeId evs (init, e0))).
Proof.
  induction evs as [|ev evs IH] using rev_ind.
  - unfold modal_inv; cbn. split; [lia|reflexivity].
  - rewrite run_snoc. destruct (run memeId evs (init, e0)) as [s e]. apply handle_inv, IH.
Qed.

Lemma handle_step ev s e :
  let s' := fst (handle memeId ev (s, e)) in
  step s' = step s \/ step s' = (step s + 1)%Z.
Proof.
  pose proof (handle_cases ev s e) as H. cbn zeta in *.
  destruct ev.
  - destruct (interval s); [destruct (4 <=? step s)%Z|]; intuition congruence.
  - intuition.
  - left. congruence.
Qed.

(** Every index up to the current one was the current one at some
    earlier moment. *)
Lemma visited e0 evs j :
  (0 <= j <= step (fst (run memeId evs (init, e0))))%Z ->
  exists k, k <= length evs /\ step (fst (run memeId (take k evs) (init, e0))) = j.
Proof.
  induction evs as [|ev evs IH] using rev_ind; intros Hj.
  - exists 0. cbn in *. split; [lia|]. lia.
  - rewrite run_snoc in Hj.
    destruct (run memeId evs (init, e0)) as [s e] eqn:Hrun.
    destruct (handle_step ev s e) as [Heq|Heq]; cbn zeta in Heq.
    + destruct IH as (k & Hk & Hs); [cbn; lia|].
      exists k. rewrite length_app. split; [lia|]. rewrite take_app_le by lia. exact Hs.
    + destruct (decide (j = step s + 1)%Z) as [->|Hne].
      * exists (length (evs ++ [ev])). split; [lia|].
        rewrite take_ge by lia. rewrite run_snoc, Hrun. exact Heq.
      * destruct IH as (k & Hk & Hs); [cbn; lia|].
        exists k. rewrite length_app. split; [lia|]. rewrite take_app_le by lia. exact Hs.
Qed.

End ModalFacts.

(** C1, amended.  The index is a cell of the mounted modal, not of a
    project.  Over the life of one mounted modal, from its mount and for
    every sequence of events (interval ticks, re-runs of the effect, which
    is what a change of meme amounts to, stage completions of the back
    end), the stage index shown after one more event is the index shown
    before it or exactly one more; it stays inside the fixed list of five
    stages; and every smaller index has been the shown one at some earlier
    moment of that modal.  Nothing is said of a stage having completed. *)
Theorem modal_step_monotone :
  forall (memeId : JSValue) (evs : list ProcessingModal.Event)
         (ev : ProcessingModal.Event) (e0 : Env),
    let shown := fun l =>
      ProcessingModal.step (fst (ProcessingModal.run memeId l (ProcessingModal.init, e0))) in
    (shown (evs ++ [ev]) = shown evs \/ shown (evs ++ [ev]) = shown evs + 1)%Z /\
    (0 <= shown (evs ++ [ev]) < Z.of_nat (length ProcessingModal.steps))%Z /\
    (forall j, (0 <= j < shown (evs ++ [ev]))%Z ->
       exists k, k <= length evs /\ shown (take k evs) = j).
Proof.
  intros memeId evs ev e0 shown.
  assert (Hstep : (shown (evs ++ [ev]) = shown evs \/ shown (evs ++ [ev]) = shown evs + 1)%Z).
  { subst shown. cbn beta. rewrite run_snoc.
    destruct (ProcessingModal.run memeId evs (ProcessingModal.init, e0)) as [s e].
    apply handle_step. }
  split; [exact Hstep|]. split.
  - destruct (run_inv memeId (evs ++ [ev]) e0) as [H _]. subst shown. cbn in *. lia.
  - intros j Hj. apply visited. subst shown. cbn beta in *. lia.
Qed.

(** C1, as stated, fails.  The modal is rendered without a key and never
    resets [step]; nothing disables a drop, and no focus is trapped, while
    it is open.  When a second image is uploaded while the modal of the
    first shows its fourth stage, the modal stays mounted: the first stage
    index ever shown for the second meme is 3, "Creating 3D mesh...", so
    for that project three stages are skipped.  The back end was asked for
    the two uploads and nothing else, so no stage is known to have
    completed for either meme. *)
Lemma second_project_inherits_step :
  HomeView.shown_for (JStr "m1")
    <$> HomeView.states second_upload (Home.init "user-1", env0 two_uploads)
  = [Some 0; Some 1; Some 2; Some 3; None]%Z /\
  HomeView.shown_for (JStr "m2")
    <$> HomeView.states second_upload (Home.init "user-1", env0 two_uploads)
  = [None; None; None; None; Some 3%Z] /\
  (ProcessingModal.current_stage
     <$> Home.modal (fst (Home.run second_upload (Home.init "user-1", env0 two_uploads))))
  = Some (Some "Creating 3D mesh...") /\
  MemeGallery.id
    <$> Home.memes (Home.home
          (fst (Home.run second_upload (Home.init "user-1", env0 two_uploads))))
  = [JStr "m2"; JStr "m1"] /\
  Home.requests (snd (Home.run second_upload (Home.init "user-1", env0 two_uploads)))
  = ["http://localhost:5000/upload"; "http://localhost:5000/upload"].
Proof. split_and!; vm_compute; reflexivity. Qed.

(** C3, as stated, fails.  Two ticks of the interval advance the shown
    stage to "Generating depth maps..." although no stage of the back end
    has completed and the modal has made no request that could tell. *)
Lemma modal_advances_without_completion :
  let evs := [ProcessingModal.Tick; ProcessingModal.Tick] in
  let w := ProcessingModal.run (JStr "m1") evs (ProcessingModal.init, env0 always_ok) in
  ProcessingModal.step (fst w) = 2%Z /\
  ProcessingModal.current_stage (fst w) = Some "Generating depth maps..." /\
  ProcessingModal.count_events ProcessingModal.is_completion evs = 0%Z /\
  nfetch (snd w) = 0.
Proof. vm_compute. repeat split. Qed.

(** C3, amended.  The stage index shown by the modal is the number of
    interval ticks it has received, capped at the last stage: it advances
    by one per tick (every 1200 ms), stage completions of the back end
    play no part, and the modal issues no request. *)
Theorem modal_step_counts_ticks :
  forall (memeId : JSValue) (evs : list ProcessingModal.Event) (e0 : Env),
    let w := ProcessingModal.run memeId evs (ProcessingModal.init, e0) in
    ProcessingModal.step (fst w) =
      Z.min (ProcessingModal.count_events ProcessingModal.is_tick evs) 4 /\
    nfetch (snd w) = nfetch e0 /\
    Home.requests (snd w) = Home.requests e0.
Proof.
  intros memeId evs e0. cbn zeta.
  induction evs as [|ev evs IH] using rev_ind.
  - cbn. repeat split.
  - rewrite run_snoc. pose proof (run_inv memeId evs e0) as [Hr Hi].
    destruct (ProcessingModal.run memeId evs (ProcessingModal.init, e0)) as [s e] eqn:Hrun.
    cbn [fst snd] in *. destruct IH as (IH1 & IH2 & IH3).
    pose proof (handle_env memeId ev s e) as [He1 He2]. cbn zeta in He1, He2.
    split; [|split; congruence].
    unfold ProcessingModal.count_events in *.
    rewrite List.filter_app, length_app, Nat2Z.inj_add.
    pose proof (handle_cases memeId ev s e) as H. cbn zeta in H.
    destruct ev; cbn [List.filter ProcessingModal.is_tick length].
    + revert H. destruct (ProcessingModal.interval s) eqn:Hint.
      * destruct (4 <=? ProcessingModal.step s)%Z eqn:Hs; intros (H1 & H2 & H3).
        -- apply Z.leb_le in Hs. lia.
        -- apply Z.leb_gt in Hs. lia.
      * intros ->. destruct (decide (ProcessingModal.step s < 4)%Z) as [Hlt|Hge];
          [specialize (Hi Hlt); congruence|]. lia.
    + lia.
    + rewrite H. lia.
Qed.

(* ===================================================================== *)
(** * Properties of the pipeline components modelled from the specification *)
(* ===================================================================== *)

(* --------------------------------------------------------------------- *)
(** ** PipelineOrchestrator *)

Section OrchestratorFacts.
Import Orchestrator.

Lemma stage_index_inj s s' : stage_index s = stage_index s' -> s = s'.
Proof. destruct s, s'; cbn; congruence. Qed.

Lemma produced_snoc s os x :
  produced s (os ++ [x]) = produced s os ++ produced s [x].
Proof. unfold produced. apply omap_app. Qed.

Lemma produced_one s s' o :
  produced s [(s', o)] =
    match o with
    | Completed a => if bool_decide (s' = s) then [a] else []
    | _ => []
    end.
Proof. destruct o; cbn; try case_bool_decide; reflexivity. Qed.

Lemma outcomes_snoc reqs :
  forall p r,
    outcomes (reqs ++ [r]) p =
      outcomes reqs p ++ [(fst r, snd (enqueue_stage (snd r) (fst r) (run reqs p)))].
Proof.
  induction reqs as [|r0 reqs IH]; intros p r; cbn; [reflexivity|].
  rewrite IH. reflexivity.
Qed.

Lemma orchestrator_run_snoc reqs p r :
  run (reqs ++ [r]) p = fst (enqueue_stage (snd r) (fst r) (run reqs p)).
Proof. unfold run. rewrite fold_left_app. reflexivity. Qed.

(** One request keeps the project in step with its history. *)
Lemma enqueue_stage_history exec s p os :
  history_ok p os ->
  history_ok (fst (enqueue_stage exec s p)) (os ++ [(s, snd (enqueue_stage exec s p))]).
Proof.
  intros (Hp & Hn & Hm). unfold enqueue_stage.
  destruct (passed p s) eqn:Hpass; cbn [fst snd].
  { split_and!; intros; rewrite ?produced_snoc; cbn; rewrite ?app_nil_r; auto. }
  destruct (stage_index s =? progress (status p))%nat eqn:Hnext; cbn [fst snd].
  2:{ split_and!; intros; rewrite ?produced_snoc; cbn; rewrite ?app_nil_r; auto. }
  apply Nat.eqb_eq in Hnext.
  destruct (exec s p) as [e|a]; cbn [fst snd].
  - assert (Hsame : forall s', passed (mkProject (Failed s) (results p) (mesh_assets p)) s'
                               = passed p s').
    { intros s'. unfold passed. cbn. rewrite Hnext. reflexivity. }
    split_and!.
    + intros s' Hs'. rewrite Hsame in Hs'. rewrite produced_snoc. cbn.
      rewrite app_nil_r. apply Hp, Hs'.
    + intros s' Hs'. rewrite Hsame in Hs'. rewrite produced_snoc. cbn.
      rewrite app_nil_r. apply Hn, Hs'.
    + cbn. rewrite produced_snoc. cbn. rewrite app_nil_r. exact Hm.
  - assert (Hprog : progress (completed s) = S (stage_index s)) by (destruct s; reflexivity).
    split_and!.
    + intros s' Hs'. unfold passed in Hs'. cbn [status] in Hs'. rewrite Hprog in Hs'.
      apply Nat.ltb_lt in Hs'. rewrite produced_snoc. rewrite produced_one; cbn [results].
      unfold stage_eqb.
      destruct (decide (s = s')) as [<-|Hne].
      * rewrite bool_decide_eq_true_2 by reflexivity. rewrite Nat.eqb_refl.
        rewrite (Hn s Hpass). cbn. eauto.
      * rewrite bool_decide_eq_false_2 by assumption.
        assert (Hidx : stage_index s' <> stage_index s)
          by (intros H; apply stage_index_inj in H; congruence).
        apply Nat.eqb_neq in Hidx. rewrite Hidx. cbn. rewrite app_nil_r.
        apply Hp. unfold passed. apply Nat.ltb_lt. apply Nat.eqb_neq in Hidx. lia.
    + intros s' Hs'. unfold passed in Hs'. cbn [status] in Hs'. rewrite Hprog in Hs'.
      apply Nat.ltb_ge in Hs'. rewrite produced_snoc. rewrite produced_one.
      rewrite bool_decide_eq_false_2 by (intros ->; lia). cbn. rewrite app_nil_r.
      apply Hn. unfold passed. apply Nat.ltb_ge. lia.
    + cbn [mesh_assets]. rewrite produced_snoc, <- Hm. rewrite produced_one.
      destruct s; cbn; rewrite ?app_nil_r; reflexivity.
Qed.

(** Every project reached from a new one is in step with its history. *)
Lemma run_history reqs : history_ok (run reqs new_project) (outcomes reqs new_project).
Proof.
  induction reqs as [|r reqs IH] using rev_ind.
  - split_and!; try reflexivity. intros s Hs. discriminate.
  - rewrite orchestrator_run_snoc, outcomes_snoc. apply enqueue_stage_history, IH.
Qed.

(** Running a stage and asking for it again: the second call answers
    with the artifact of the first and leaves the project as it is. *)
Lemma enqueue_stage_twice exec exec' s p p' a :
  enqueue_stage exec s p = (p', Completed a) ->
  enqueue_stage exec' s p' = (p', Existing (Some a)).
Proof.
  unfold enqueue_stage.
  destruct (passed p s) eqn:Hpass; [discriminate|].
  destruct (stage_index s =? progress (status p))%nat eqn:Hnext; [|discriminate].
  destruct (exec s p) as [e|b]; [discriminate|].
  intros [= <- <-]. unfold passed, stage_eqb. cbn.
  rewrite Nat.eqb_refl. destruct s; reflexivity.
Qed.

(** A failed stage is entered again on retry, and the artifacts of the
    earlier stages are still there. *)
Lemma retry_reenters_failed_stage exec exec' s p p1 e a :
  enqueue_stage exec s p = (p1, StageFailed e) ->
  exec' s p1 = inr a ->
  snd (enqueue_stage exec' s p1) = Completed a /\
  forall s', stage_eqb s' s = false ->
    results (fst (enqueue_stage exec' s p1)) s' = results p s'.
Proof.
  unfold enqueue_stage at 1.
  destruct (passed p s) eqn:Hpass; [discriminate|].
  destruct (stage_index s =? progress (status p))%nat eqn:Hnext; [|discriminate].
  destruct (exec s p) as [e1|b]; [|discriminate].
  intros [= <- <-] Hexec. unfold enqueue_stage, passed. cbn [status progress].
  rewrite Nat.ltb_irrefl, Nat.eqb_refl, Hexec. cbn.
  split; [reflexivity|]. intros s' ->. reflexivity.
Qed.

End OrchestratorFacts.

(** C2.  For every project reached from a new one by any history of stage
    requests, and every stage the project has already passed: that stage
    was executed to completion exactly once in the history, producing an
    artifact [a]; requesting the stage again executes nothing (the answer
    does not depend on the worker), returns that same [a] and leaves the
    project unchanged; in the extended history the stage has still
    completed exactly once; and the MeshAsset store still holds exactly what
    the reconstructions of the history produced, which is at most one
    version. *)
Theorem enqueue_stage_idempotent :
  forall (reqs : list Orchestrator.Request)
         (exec : Orchestrator.Stage -> Orchestrator.Project ->
                 Orchestrator.ErrorKind + Orchestrator.Artifact)
         (s : Orchestrator.Stage),
    let p := Orchestrator.run reqs Orchestrator.new_project in
    let os := Orchestrator.outcomes reqs Orchestrator.new_project in
    Orchestrator.passed p s = true ->
    exists a,
      Orchestrator.produced s os = [a] /\
      Orchestrator.enqueue_stage exec s p = (p, Orchestrator.Existing (Some a)) /\
      Orchestrator.produced s
        (Orchestrator.outcomes (reqs ++ [(s, exec)]) Orchestrator.new_project) = [a] /\
      Orchestrator.mesh_assets (fst (Orchestrator.enqueue_stage exec s p)) =
        Orchestrator.produced Orchestrator.Reconstruction os /\
      length (Orchestrator.produced Orchestrator.Reconstruction os) <= 1.
Proof.
  intros reqs exec s p os Hpass.
  destruct (run_history reqs) as (Hp & Hn & Hm). fold p os in Hp, Hn, Hm.
  destruct (Hp s Hpass) as (a & Ha & Hr).
  assert (Henq : Orchestrator.enqueue_stage exec s p
                 = (p, Orchestrator.Existing (Some a))).
  { unfold Orchestrator.enqueue_stage. rewrite Hpass, Hr. reflexivity. }
  exists a. split_and!.
  - exact Ha.
  - exact Henq.
  - rewrite outcomes_snoc. cbn [fst snd]. fold p os. rewrite Henq. cbn [snd].
    rewrite produced_snoc. cbn. rewrite app_nil_r. exact Ha.
  - rewrite Henq. exact Hm.
  - destruct (Orchestrator.passed p Orchestrator.Reconstruction) eqn:Hrec.
    + destruct (Hp _ Hrec) as (b & -> & _). cbn. lia.
    + rewrite (Hn _ Hrec). cbn. lia.
Qed.

Lemma enqueue_stage_idempotent_witness :
  exists a,
    Orchestrator.produced Orchestrator.Segmentation
      (Orchestrator.outcomes reconstructed Orchestrator.new_project) = [a] /\
    Orchestrator.enqueue_stage (worker 9) Orchestrator.Segmentation
      (Orchestrator.run reconstructed Orchestrator.new_project)
    = (Orchestrator.run reconstructed Orchestrator.new_project,
       Orchestrator.Existing (Some a)) /\
    Orchestrator.produced Orchestrator.Segmentation
      (Orchestrator.outcomes
         (reconstructed ++ [(Orchestrator.Segmentation, worker 9)])
         Orchestrator.new_project) = [a] /\
    Orchestrator.mesh_assets
      (fst (Orchestrator.enqueue_stage (worker 9) Orchestrator.Segmentation
              (Orchestrator.run reconstructed Orchestrator.new_project)))
    = Orchestrator.produced Orchestrator.Reconstruction
        (Orchestrator.outcomes reconstructed Orchestrator.new_project) /\
    length (Orchestrator.produced Orchestrator.Reconstruction
              (Orchestrator.outcomes reconstructed Orchestrator.new_project)) <= 1.
Proof.
  apply (enqueue_stage_idempotent reconstructed (worker 9) Orchestrator.Segmentation).
  reflexivity.
Defined.

(** After segmentation (artifact 7) and reconstruction (artifact 8), asking
    for segmentation again answers 7, not the later artifact. *)
Example segment_again :
  Orchestrator.enqueue_stage (worker 9) Orchestrator.Segmentation
    (Orchestrator.run reconstructed Orchestrator.new_project)
  = (Orchestrator.run reconstructed Orchestrator.new_project,
     Orchestrator.Existing (Some 7)) /\
  Orchestrator.produced Orchestrator.Segmentation
    (Orchestrator.outcomes reconstructed Orchestrator.new_project) = [7].
Proof. split; reflexivity. Qed.

Example reconstruct_again :
  Orchestrator.enqueue_stage (worker 9) Orchestrator.Reconstruction
    (Orchestrator.run reconstructed Orchestrator.new_project)
  = (Orchestrator.run reconstructed Orchestrator.new_project,
     Orchestrator.Existing (Some 8)) /\
  Orchestrator.mesh_assets (Orchestrator.run reconstructed Orchestrator.new_project) = [8].
Proof. split; reflexivity. Qed.

(* --------------------------------------------------------------------- *)
(** ** SceneGraph *)

Section SceneGraphFacts.
Import SceneGraph.
Context (g : list SceneObject).

Lemma child_of_in_arena x y : child_of g x y -> x < length g.
Proof.
  unfold child_of, parent_of. destruct (g !! x) eqn:Hx; [|discriminate].
  intros _. eapply lookup_lt_Some; eauto.
Qed.

(** The walk finds every ancestor that is at most [fuel] steps away. *)
Lemma reaches_up_complete k :
  forall fuel x o, nsteps (child_of g) k x o -> k <= fuel -> reaches_up g fuel x o = true.
Proof.
  induction k as [|k IH]; intros fuel x o Hsteps Hle.
  - inversion Hsteps; subst. destruct fuel; cbn; rewrite Nat.eqb_refl; reflexivity.
  - inversion Hsteps as [|? ? y ? Hxy Hrest]; subst.
    destruct fuel as [|fuel]; [lia|]. cbn.
    destruct (x =? o)%nat eqn:Hxo; [reflexivity|].
    unfold child_of in Hxy. rewrite Hxy. apply IH; [assumption|lia].
Qed.

(** What the walk finds is the node itself or one of its ancestors. *)
Lemma reaches_up_sound fuel :
  forall x o, reaches_up g fuel x o = true -> rtc (child_of g) x o.
Proof.
  induction fuel as [|fuel IH]; intros x o; cbn.
  - destruct (x =? o)%nat eqn:Hxo; [|discriminate].
    apply Nat.eqb_eq in Hxo as ->. reflexivity.
  - destruct (x =? o)%nat eqn:Hxo.
    + apply Nat.eqb_eq in Hxo as ->. reflexivity.
    + destruct (parent_of g x) as [y|] eqn:Hp; [|discriminate].
      intros H. eapply rtc_l; [exact Hp|]. apply IH, H.
Qed.

(** Two positions of a path are joined by as many steps as lie between
    them. *)
Lemma path_segment (l : list nat) :
  (forall i a b, l !! i = Some a -> l !! S i = Some b -> child_of g a b) ->
  forall d i a b, l !! i = Some a -> l !! (i + d) = Some b -> nsteps (child_of g) d a b.
Proof.
  intros Hl. induction d as [|d IH]; intros i a b Ha Hb.
  - rewrite Nat.add_0_r in Hb. assert (a = b) by congruence. subst. constructor.
  - destruct (l !! S i) as [c|] eqn:Hc.
    + econstructor; [eapply Hl; eauto|].
      apply (IH (S i)); [assumption|]. rewrite <- Hb. f_equal. lia.
    + apply lookup_ge_None in Hc. apply lookup_lt_Some in Hb. lia.
Qed.

(** In an acyclic graph no chain of parents is longer than the arena:
    the nodes that have a parent are pairwise distinct indices of it. *)
Lemma acyclic_bounded k x y :
  acyclic g -> nsteps (child_of g) k x y -> k <= length g.
Proof.
  intros Hac Hsteps.
  apply nsteps_list in Hsteps as (l & Hlen & Hhd & Hlast & Hl).
  assert (Hcyc : forall a i j, i < j -> l !! i = Some a -> l !! j = Some a -> False).
  { intros a i j Hij Hi Hj. apply (Hac a).
    apply tc_nsteps. exists (j - i). split; [lia|].
    eapply (path_segment l Hl (j - i) i); [exact Hi|].
    replace (i + (j - i)) with j by lia. exact Hj. }
  assert (Hnd : NoDup (take k l)).
  { apply NoDup_alt. intros i j a Hi Hj.
    apply lookup_take_Some in Hi as [Hi Hik]. apply lookup_take_Some in Hj as [Hj Hjk].
    destruct (decide (i = j)) as [|Hne]; [assumption|exfalso].
    destruct (decide (i < j)); [eapply (Hcyc a i j)|eapply (Hcyc a j i)]; eauto; lia. }
  assert (Hin : forall a, a ∈ take k l -> a ∈ seq 0 (length g)).
  { intros a Ha. apply list_elem_of_lookup in Ha as [i Hi].
    apply lookup_take_Some in Hi as [Hi Hik].
    destruct (l !! S i) as [b|] eqn:Hb.
    - apply elem_of_seq. pose proof (child_of_in_arena a b (Hl i a b Hi Hb)). lia.
    - apply lookup_ge_None in Hb. lia. }
  pose proof (submseteq_length _ _ (NoDup_submseteq _ _ Hnd Hin)) as Hle.
  rewrite length_take, length_seq in Hle. lia.
Qed.

(** On an acyclic graph the bounded walk decides the descendant relation. *)
Lemma reaches_up_spec x o :
  acyclic g -> (reaches_up g (length g) x o = true <-> rtc (child_of g) x o).
Proof.
  intros Hac. split; [apply reaches_up_sound|].
  intros Hrtc. apply rtc_nsteps in Hrtc as [k Hk].
  eapply reaches_up_complete; [exact Hk|]. eapply acyclic_bounded; eauto.
Qed.

Lemma parent_of_set_parent obj p x :
  obj < length g ->
  parent_of (set_parent g obj p) x = if decide (x = obj) then p else parent_of g x.
Proof.
  intros Hobj. unfold set_parent, parent_of.
  destruct (lookup_lt_is_Some_2 g obj Hobj) as [o Ho]. rewrite Ho.
  destruct (decide (x = obj)) as [->|Hne].
  - rewrite list_lookup_insert_eq by assumption. reflexivity.
  - rewrite list_lookup_insert_ne by congruence. reflexivity.
Qed.

(** A path to [obj] in the re-parented graph never needs the new edge. *)
Lemma rtc_set_parent_to_obj obj p x :
  obj < length g ->
  rtc (child_of (set_parent g obj p)) x obj -> rtc (child_of g) x obj.
Proof.
  intros Hobj. revert x. apply rtc_ind_l.
  - reflexivity.
  - intros x y Hxy Hyz IH. destruct (decide (x = obj)) as [->|Hne]; [reflexivity|].
    eapply rtc_l; [|exact IH].
    unfold child_of in *. rewrite parent_of_set_parent in Hxy by assumption.
    rewrite decide_False in Hxy by assumption. exact Hxy.
Qed.

(** A path of the re-parented graph is a path of the old graph, or it
    passes through the new edge [obj -> q]. *)
Lemma tc_set_parent obj q x y :
  obj < length g ->
  tc (child_of (set_parent g obj (Some q))) x y ->
  tc (child_of g) x y \/
  (rtc (child_of (set_parent g obj (Some q))) x obj /\
   rtc (child_of (set_parent g obj (Some q))) q y).
Proof.
  intros Hobj Htc. induction Htc as [x y Hxy|x z y Hxz Hzy IH].
  - unfold child_of in Hxy. rewrite parent_of_set_parent in Hxy by assumption.
    destruct (decide (x = obj)) as [->|Hne].
    + right. injection Hxy as ->. split; reflexivity.
    + left. apply tc_once. exact Hxy.
  - pose proof Hxz as Hxz'.
    unfold child_of in Hxz. rewrite parent_of_set_parent in Hxz by assumption.
    destruct (decide (x = obj)) as [->|Hne].
    + right. injection Hxz as ->. split; [reflexivity|]. apply tc_rtc, Hzy.
    + destruct IH as [IH|[IH1 IH2]].
      * left. eapply tc_l; [exact Hxz|exact IH].
      * right. split; [|exact IH2]. eapply rtc_l; [exact Hxz'|exact IH1].
Qed.

Lemma tc_set_parent_root obj x y :
  obj < length g ->
  tc (child_of (set_parent g obj None)) x y -> tc (child_of g) x y.
Proof.
  intros Hobj Htc.
  assert (Hsub : forall a b, child_of (set_parent g obj None) a b -> child_of g a b).
  { intros a b Hab. unfold child_of in *. rewrite parent_of_set_parent in Hab by assumption.
    destruct (decide (a = obj)); [discriminate|assumption]. }
  induction Htc as [x y Hxy|x z y Hxz Hzy IH].
  - apply tc_once, Hsub, Hxy.
  - eapply tc_l; [apply Hsub, Hxz|exact IH].
Qed.

(** [attach] keeps the graph acyclic, whatever it answers. *)
Lemma attach_preserves_acyclic obj p :
  acyclic g -> acyclic (fst (attach g obj p)).
Proof.
  intros Hac. unfold attach.
  destruct (obj <? length g)%nat eqn:Hobj; cbn [negb fst]; [|exact Hac].
  apply Nat.ltb_lt in Hobj.
  destruct p as [q|]; cbn [negb fst].
  - destruct (q <? length g)%nat eqn:Hq; cbn [negb fst]; [|exact Hac].
    destruct (reaches_up g (length g) q obj) eqn:Hr; cbn [negb fst]; [exact Hac|].
    intros x Hx. apply tc_set_parent in Hx; [|exact Hobj].
    destruct Hx as [Hx|[Hx1 Hx2]].
    + exact (Hac x Hx).
    + assert (Hqo : rtc (child_of g) q obj).
      { eapply rtc_set_parent_to_obj; [exact Hobj|]. etrans; eassumption. }
      apply reaches_up_spec in Hqo; [congruence|assumption].
  - intros x Hx. apply tc_set_parent_root in Hx; [|assumption]. exact (Hac x Hx).
Qed.

(** An attach that is accepted does what was asked. *)
Lemma attach_accepted obj q g' :
  attach g obj (Some q) = (g', None) -> parent_of g' obj = Some q.
Proof.
  unfold attach.
  destruct (obj <? length g)%nat eqn:Hobj; cbn [negb]; [|discriminate].
  destruct (q <? length g)%nat eqn:Hq; cbn [negb]; [|discriminate].
  destruct (reaches_up g (length g) q obj); [discriminate|].
  intros [= <-]. apply Nat.ltb_lt in Hobj.
  rewrite parent_of_set_parent by assumption. rewrite decide_True; reflexivity.
Qed.

Lemma parents_below_acyclic : parents_below g = true -> acyclic g.
Proof.
  intros Hpb.
  assert (Hlt : forall x y, child_of g x y -> y < x).
  { intros x y Hxy. unfold parents_below in Hpb.
    rewrite forallb_forall in Hpb.
    specialize (Hpb x). unfold child_of in Hxy. rewrite Hxy in Hpb.
    apply Nat.ltb_lt, Hpb, in_seq.
    pose proof (child_of_in_arena x y Hxy). lia. }
  assert (Htc : forall x y, tc (child_of g) x y -> y < x).
  { intros x y H. induction H as [x y H|x z y H _ IH].
    - apply Hlt, H.
    - apply Hlt in H. lia. }
  intros x Hx. apply Htc in Hx. lia.
Qed.

End SceneGraphFacts.

(** C6.  On every acyclic scene graph, attaching an object under a
    parent that is the object itself or one of its descendants fails with
    [CycleError], returns the graph as it was, and the graph left behind
    is acyclic (each object has at most one parent by construction). *)
Theorem attach_rejects_cycle :
  forall (g : list SceneGraph.SceneObject) (obj q : nat),
    SceneGraph.acyclic g ->
    obj < length g -> q < length g ->
    rtc (SceneGraph.child_of g) q obj ->
    SceneGraph.attach g obj (Some q) = (g, Some SceneGraph.CycleError) /\
    SceneGraph.acyclic (fst (SceneGraph.attach g obj (Some q))).
Proof.
  intros g obj q Hac Hobj Hq Hdesc. split.
  - unfold SceneGraph.attach.
    apply Nat.ltb_lt in Hobj, Hq. rewrite Hobj, Hq. cbn.
    apply (reaches_up_spec g q obj Hac) in Hdesc. rewrite Hdesc. reflexivity.
  - apply attach_preserves_acyclic, Hac.
Qed.

Lemma attach_rejects_cycle_witness :
  SceneGraph.attach chain3 0 (Some 2) = (chain3, Some SceneGraph.CycleError) /\
  SceneGraph.acyclic (fst (SceneGraph.attach chain3 0 (Some 2))).
Proof.
  apply (attach_rejects_cycle chain3 0 2).
  - apply parents_below_acyclic. reflexivity.
  - cbn. lia.
  - cbn. lia.
  - apply (reaches_up_sound chain3 3). reflexivity.
Defined.

Example attach_sibling_accepted :
  SceneGraph.attach chain3 2 (Some 0) =
    ([SceneGraph.mkObject 10 None;
      SceneGraph.mkObject 11 (Some 0);
      SceneGraph.mkObject 12 (Some 0)], None).
Proof. reflexivity. Qed.

(* --------------------------------------------------------------------- *)
(** ** Renderer and FrameEncoder *)

Section RenderFacts.
Import Renderer FrameEncoder.
Context {Scene Frame : Type} (rasterize : Scene -> CameraPose -> option Frame).

(** When every pose can be rendered, the frames come out one per pose
    and in the order of the poses. *)
Lemma render_poses_ok sc poses :
  Forall (fun c => degenerate c = false /\ is_Some (rasterize sc c)) poses ->
  exists fs, render_poses rasterize sc poses = inr fs /\
             (Some <$> fs) = (rasterize sc <$> poses).
Proof.
  induction 1 as [|c poses [Hdeg [f Hf]] _ IH]; cbn.
  - exists []. split; reflexivity.
  - destruct IH as (fs & -> & Hfs). rewrite Hdeg, Hf. exists (f :: fs).
    split; [reflexivity|]. cbn. rewrite Hfs. reflexivity.
Qed.

(** A degenerate camera or an invisible scene fails the whole render. *)
Lemma render_poses_error sc poses c :
  c ∈ poses -> degenerate c = true \/ rasterize sc c = None ->
  render_poses rasterize sc poses = inl RenderError.
Proof.
  induction poses as [|c' poses IH]; intros Hin Hbad; [inversion Hin|].
  cbn. destruct (degenerate c') eqn:Hdeg; [reflexivity|].
  destruct (rasterize sc c') as [f|] eqn:Hf; [|reflexivity].
  apply elem_of_cons in Hin as [->|Hin]; [destruct Hbad; congruence|].
  rewrite (IH Hin Hbad). reflexivity.
Qed.

(** Pushing frames one at a time stamps the i-th of them with
    [(pushed + i) / fps]. *)
Lemma fold_push (fs : list Frame) :
  forall enc,
    fold_left push fs enc =
      mkEncoder (enc_format enc) (enc_fps enc) (pushed enc + length fs)
        (written enc ++
         imap (fun i f => ((inject_Z (Z.of_nat (pushed enc + i)) / enc_fps enc)%Q, f)) fs).
Proof.
  induction fs as [|f fs IH]; intros enc; cbn.
  - rewrite Nat.add_0_r, app_nil_r. destruct enc; reflexivity.
  - rewrite IH. cbn. rewrite <- app_assoc. cbn. rewrite Nat.add_0_r.
    f_equal; [lia|]. f_equal. f_equal. apply imap_ext. intros i x _. cbn.
    replace (S (pushed enc + i)) with (pushed enc + S i) by lia. reflexivity.
Qed.

End RenderFacts.

(** C4.  For every orbit of N samples whose camera does not sit on its
    target and from whose samples the scene is visible, the Renderer
    returns exactly N frames, the i-th being the frame of the i-th sample;
    and for every positive frame rate F the FrameEncoder turns these
    frames into an artifact that declares N frames at rate F, a duration
    of N / F seconds, and holds frame i at timestamp i / F. *)
Theorem orbit_frames_and_timing :
  forall (Scene Frame : Type) (rasterize : Scene -> Renderer.CameraPose -> option Frame)
         (sc : Scene) (o : Renderer.Orbit) (fmt : FrameEncoder.Format) (fps : Q),
    (0 < fps)%Q ->
    (Qeq_bool (Renderer.orbit_radius o) 0 && Qeq_bool (Renderer.orbit_height o) 0) = false ->
    (forall i, i < Renderer.samples o -> is_Some (rasterize sc (Renderer.sample o i))) ->
    exists fs art,
      Renderer.render rasterize sc o = inr fs /\
      length fs = Renderer.samples o /\
      (forall i, i < Renderer.samples o -> fs !! i = rasterize sc (Renderer.sample o i)) /\
      FrameEncoder.encode fmt fps fs = inr art /\
      FrameEncoder.frame_count art = Renderer.samples o /\
      FrameEncoder.frame_rate art = fps /\
      (FrameEncoder.duration art == inject_Z (Z.of_nat (Renderer.samples o)) / fps)%Q /\
      (forall i f, fs !! i = Some f ->
         exists t, FrameEncoder.frames art !! i = Some (t, f) /\
                   (t == inject_Z (Z.of_nat i) / fps)%Q).
Proof.
  intros Scene Frame rasterize sc o fmt fps Hfps Hdeg Hvis.
  destruct (render_poses_ok rasterize sc (Renderer.trajectory o)) as (fs & Hfs & Hmap).
  { apply Forall_forall. intros c Hc. unfold Renderer.trajectory in Hc.
    apply list_elem_of_fmap in Hc as (i & -> & Hi%elem_of_seq).
    split; [exact Hdeg|]. apply Hvis. lia. }
  assert (Hlen : length fs = Renderer.samples o).
  { apply (f_equal length) in Hmap. unfold Renderer.trajectory in Hmap.
    rewrite !length_fmap, length_seq in Hmap. exact Hmap. }
  exists fs. eexists. split; [exact Hfs|]. split; [exact Hlen|]. split.
  { intros i Hi. apply (f_equal (fun l => l !! i)) in Hmap.
    unfold Renderer.trajectory in Hmap. rewrite !list_lookup_fmap in Hmap.
    rewrite (lookup_seq_lt 0 (Renderer.samples o) i Hi) in Hmap. cbn in Hmap.
    destruct (fs !! i) eqn:Hfi; cbn in Hmap.
    - inversion Hmap. congruence.
    - apply lookup_ge_None in Hfi. lia. }
  unfold FrameEncoder.encode, FrameEncoder.open.
  assert (Hle : Qle_bool fps 0 = false).
  { destruct (Qle_bool fps 0) eqn:E; [|reflexivity].
    apply Qle_bool_iff in E. exfalso. eapply Qlt_not_le; eassumption. }
  rewrite Hle. split; [reflexivity|]. rewrite fold_push. cbn.
  split; [exact Hlen|]. split; [reflexivity|]. split.
  { rewrite Hlen. reflexivity. }
  intros i f Hi. eexists. split.
  - rewrite list_lookup_imap, Hi. reflexivity.
  - reflexivity.
Qed.

Lemma orbit_frames_and_timing_witness :
  exists fs art,
    Renderer.render angle_frame tt orbit4 = inr fs /\
    length fs = 4 /\
    FrameEncoder.encode FrameEncoder.Video 30 fs = inr art /\
    FrameEncoder.frame_count art = 4 /\
    (FrameEncoder.duration art == 4 # 30)%Q.
Proof.
  assert (Hfps : (0 < 30)%Q) by reflexivity.
  assert (Hvis : forall i, i < Renderer.samples orbit4 ->
                           is_Some (angle_frame tt (Renderer.sample orbit4 i))).
  { intros i _. eexists. reflexivity. }
  destruct (orbit_frames_and_timing unit Q angle_frame tt orbit4 FrameEncoder.Video 30%Q
              Hfps eq_refl Hvis)
    as (fs & art & H1 & H2 & _ & H4 & H5 & _ & H7 & _).
  exists fs, art. repeat split; assumption.
Defined.

Example orbit_video :
  match Renderer.render angle_frame tt orbit4 with
  | inr fs =>
      match FrameEncoder.encode FrameEncoder.Video 30 fs with
      | inr art => fst <$> FrameEncoder.frames art = [0 # 30; 1 # 30; 2 # 30; 3 # 30]%Q
      | inl _ => False
      end
  | inl _ => False
  end.
Proof. reflexivity. Qed.

(* ===================================================================== *)
(** * Further properties of the front end *)
(* ===================================================================== *)

(* --------------------------------------------------------------------- *)
(** ** The header badge *)

Lemma length_string_app (s t : string) :
  String.length (s +:+ t) = String.length s + String.length t.
Proof.
  induction s as [|c s IH]; [reflexivity|].
  change (S (String.length (s +:+ t)) = S (String.length s) + String.length t).
  rewrite IH. reflexivity.
Qed.

Lemma length_substring_le (s : string) :
  forall k n, String.length (String.substring k n s) <= n.
Proof.
  induction s as [|c s IH]; intros [|k] [|n]; simpl; try lia.
  - specialize (IH 0 n). lia.
  - apply IH.
  - apply IH.
Qed.

Lemma drop_length (s : string) :
  forall k, String.length (Header.drop k s) = String.length s - k.
Proof.
  induction s as [|c s IH]; intros [|k]; simpl; try reflexivity. apply IH.
Qed.

Lemma drop_suffix (s : string) :
  forall k, exists p, s = p +:+ Header.drop k s /\ String.length p = Nat.min k (String.length s).
Proof.
  induction s as [|c s IH]; intros [|k]; simpl.
  - exists "". split; reflexivity.
  - exists "". split; reflexivity.
  - exists "". split; reflexivity.
  - destruct (IH k) as (p & Hp & Hl). exists (String c p). simpl.
    split; [|lia].
    change (String c s = String c (p +:+ Header.drop k s)). f_equal. exact Hp.
Qed.

Lemma drop_app (s t : string) :
  forall k, String.length s <= k ->
            Header.drop k (s +:+ t) = Header.drop (k - String.length s) t.
Proof.
  induction s as [|c s IH]; intros k Hk; simpl in *.
  - rewrite Nat.sub_0_r. reflexivity.
  - destruct k as [|k]; [lia|].
    change (Header.drop k (s +:+ t) = Header.drop (k - String.length s) t).
    apply IH. lia.
Qed.

(** X1.  The badge of the header, [userId.slice(-6)], is the end of the
    user id and has six characters, or all of them when the id is
    shorter.  For the ids [Home] makes ("user-" and up to nine digits of
    a random number) the id has 5 to 14 characters; the badge has six as
    soon as there is one digit, and shows digits only when there are at
    least six. *)
Theorem header_badge_shows_last_six :
  forall (userId : string),
    (exists p, userId = p +:+ Header.badge userId) /\
    String.length (Header.badge userId) = Nat.min 6 (String.length userId) /\
    (forall r, userId = HomeView.newUserId r ->
       5 <= String.length userId <= 14 /\
       (1 <= String.length (String.substring 2 9 r) ->
        String.length (Header.badge userId) = 6) /\
       (6 <= String.length (String.substring 2 9 r) ->
        exists p, String.substring 2 9 r = p +:+ Header.badge userId)).
Proof.
  intros userId. unfold Header.badge, Header.slice_last. split_and!.
  - destruct (drop_suffix userId (String.length userId - 6)) as (p & Hp & _). eauto.
  - rewrite drop_length. lia.
  - intros r ->. unfold HomeView.newUserId.
    pose proof (length_substring_le r 2 9) as Hle.
    rewrite !length_string_app. change (String.length "user-") with 5.
    split_and!.
    + lia.
    + lia.
    + intros H1. rewrite drop_length, length_string_app.
      change (String.length "user-") with 5. lia.
    + intros H6. rewrite drop_app by (change (String.length "user-") with 5; lia).
      destruct (drop_suffix (String.substring 2 9 r)
                  (5 + String.length (String.substring 2 9 r) - 6 - String.length "user-"))
        as (p & Hp & _).
      exists p. exact Hp.
Qed.

(* --------------------------------------------------------------------- *)
(** ** The handlers, one call at a time *)

(** X2.  An image file answered with an ok response whose body has
    readable [meme_id] and [image_url]: the handler returns normally, a
    card with these two values and status "processing" is put in front
    of the memes, [isProcessing] is set and [currentMemeId] is the id,
    the error is cleared, the loading flag is down and the gallery is
    mounted.  The modal is mounted only when the id is truthy; a modal
    that was already open keeps its step and its completion flag.  The
    only effects are the one request and the reset of the file input. *)
Theorem upload_success_adds_meme :
  forall (a : Home.App) (e : Env) (file : UploadSection.File) (uid : string)
         (data mid url : JSValue),
    String.prefix "image/" (UploadSection.type file) = true ->
    net e (nfetch e) = FetchResponse true (Some data) ->
    get_prop data "meme_id" = inr mid ->
    get_prop data "image_url" = inr url ->
    let r := UploadSection.handleFileUpload Home.uploadL Home.onUploadSuccess uid file (a, e) in
    let a' := fst (snd r) in
    let e' := snd (snd r) in
    fst r = inr tt /\
    Home.memes (Home.home a') =
      MemeGallery.mkMeme mid url "processing" (now e) :: Home.memes (Home.home a) /\
    Home.isProcessing (Home.home a') = true /\
    Home.currentMemeId (Home.home a') = mid /\
    UploadSection.error (Home.upload a') = None /\
    UploadSection.isLoading (Home.upload a') = false /\
    is_Some (Home.gallery a') /\
    (truthy mid = true ->
       exists s, Home.modal a' = Some s /\ ProcessingModal.interval s = true /\
                 (Home.modal a = None -> s = ProcessingModal.init) /\
                 (forall s0, Home.modal a = Some s0 ->
                    ProcessingModal.step s = ProcessingModal.step s0 /\
                    ProcessingModal.isComplete s = ProcessingModal.isComplete s0)) /\
    (truthy mid = false -> Home.modal a' = None) /\
    log e' = log e ++
      EFetch POST (API_BASE_URL e +:+ "/upload")
             (FormData [("file", UploadSection.name file); ("user_id", uid)])
      :: (if UploadSection.fileInputRef (Home.upload a) then [EClearFileInput] else []).
Proof.
  intros a e file uid data mid url Hty Hnet Hmid Hurl.
  unfold UploadSection.handleFileUpload. rewrite Hty. cbn [negb].
  unfold_js. cbn. rewrite Hnet. cbn. rewrite Hmid. cbn. rewrite Hurl. cbn.
  destruct a as [h u g t m]. cbn.
  destruct (UploadSection.fileInputRef u) eqn:Href; cbn.
  all: rewrite <- ?app_assoc; cbn.
  all: split_and!; try reflexivity.
  all: try (destruct g; cbn; eauto; fail).
  all: try (intros Hm; rewrite Hm; cbn; destruct m; cbn; eexists; split_and!;
            try reflexivity; try congruence;
            intros s0 [= <-]; split; reflexivity).
  all: try (intros Hm; rewrite Hm; cbn; reflexivity).
Qed.

(** X3.  No handler lets an exception escape: whatever the network
    answers, whatever the body holds and whatever the [onUploadSuccess]
    callback does, the promise of every handler resolves. *)
Theorem handlers_never_throw :
  forall (a : Home.App) (e : Env),
    (forall file uid (cb : JSValue -> JSValue -> M Home.App unit),
        fst (UploadSection.handleFileUpload Home.uploadL cb uid file (a, e)) = inr tt) /\
    fst (TrendingSection.fetchTrending Home.trendingL (a, e)) = inr tt /\
    (forall c, fst (TrendingSection.clickCategory Home.trendingL c (a, e)) = inr tt) /\
    (forall memeId, fst (MemeGallery.handleGenerate3D Home.galleryL memeId (a, e)) = inr tt) /\
    (forall memeId, fst (MemeGallery.handleExport Home.galleryL memeId (a, e)) = inr tt) /\
    (forall ev, fst (Home.handler ev (a, e)) = inr tt).
Proof.
  intros a e. split_and!.
  - intros file uid cb. run_js; reflexivity.
  - run_js; reflexivity.
  - intros c. run_js; reflexivity.
  - intros memeId. run_js; reflexivity.
  - intros memeId. run_js; reflexivity.
  - intros ev. destruct ev; unfold Home.handler; run_js; reflexivity.
Qed.

(** X4.  Clicking the category that is already selected does nothing,
    not even a request; clicking another one selects it, issues one
    request for that category and leaves the loading flag down. *)
Theorem clickCategory_refetches_on_change :
  forall (a : Home.App) (e : Env) (c : string),
    let w := snd (TrendingSection.clickCategory Home.trendingL c (a, e)) in
    (c = TrendingSection.selectedCategory (Home.trendingSection a) -> w = (a, e)) /\
    (c <> TrendingSection.selectedCategory (Home.trendingSection a) ->
       TrendingSection.selectedCategory (Home.trendingSection (fst w)) = c /\
       TrendingSection.isLoading (Home.trendingSection (fst w)) = false /\
       Home.requests (snd w) =
         Home.requests e ++ [API_BASE_URL e +:+ "/trending?category=" +:+ c] /\
       nfetch (snd w) = S (nfetch e)).
Proof.
  intros a e c. cbn zeta. split.
  - intros ->. unfold TrendingSection.clickCategory, bind, read. cbn.
    rewrite String.eqb_refl. reflexivity.
  - intros Hne. apply String.eqb_neq in Hne.
    unfold TrendingSection.clickCategory, bind, read. cbn. rewrite Hne.
    run_js; norm_requests; split_and!; reflexivity.
Qed.

(** X5.  [handleExport] puts [exportingId] back to null and touches
    nothing else of the state.  A response that is not ok leaves no trace
    but the request; an ok response with a readable body opens a window
    on [data.url], even when the body has no url; and a window is opened
    in no other case. *)
Theorem handleExport_opens_window_on_ok :
  forall (a : Home.App) (e : Env) (g : MemeGallery.State) (memeId : JSValue),
    Home.gallery a = Some g ->
    let r := MemeGallery.handleExport Home.galleryL memeId (a, e) in
    let req := EFetch POST (API_BASE_URL e +:+ "/export/" +:+ to_string memeId)
                 (JsonBody (JObj [("format", JStr "gif")])) in
    fst (snd r) =
      Home.mkApp (Home.home a) (Home.upload a)
        (Some (MemeGallery.mkState (MemeGallery.generatingId g) JNull))
        (Home.trendingSection a) (Home.modal a) /\
    (forall body, net e (nfetch e) = FetchResponse false body ->
       log (snd (snd r)) = log e ++ [req]) /\
    (forall data u, net e (nfetch e) = FetchResponse true (Some data) ->
       get_prop data "url" = inr u ->
       log (snd (snd r)) = log e ++ [req; EWindowOpen u]) /\
    (forall x, In (EWindowOpen x) (log (snd (snd r))) ->
       In (EWindowOpen x) (log e) \/
       exists data, net e (nfetch e) = FetchResponse true (Some data) /\
                    get_prop data "url" = inr x).
Proof.
  intros a e g memeId Hg. destruct a as [h u g' t m]. cbn in Hg. subst g'.
  run_js; rewrite <- ?app_assoc; cbn; split_and!; intros; simplify_eq; try reflexivity.
  all: try match goal with
           | H1 : get_prop ?d ?k = _, H2 : get_prop ?d ?k = _ |- _ =>
               rewrite H1 in H2; simplify_eq
           end; try reflexivity.
  all: match goal with
       | H : In _ _ |- _ =>
           rewrite in_app_iff in H; cbn in H;
           destruct H as [H|H]; [left; exact H|];
           repeat (destruct H as [H|H]; try discriminate);
           try contradiction
       end.
  all: simplify_eq; right; eauto.
Qed.

(** X6.  [handleGenerate3D] puts [generatingId] back to null and
    touches nothing else of the state, whatever the answer: the outcome
    goes to the console only (the body of an ok response, the error of a
    rejected request) or nowhere (a response that is not ok). *)
Theorem handleGenerate3D_leaves_no_trace :
  forall (a : Home.App) (e : Env) (g : MemeGallery.State) (memeId : JSValue),
    Home.gallery a = Some g ->
    let r := MemeGallery.handleGenerate3D Home.galleryL memeId (a, e) in
    let req := EFetch POST (API_BASE_URL e +:+ "/generate-3d/" +:+ to_string memeId) NoBody in
    fst (snd r) =
      Home.mkApp (Home.home a) (Home.upload a)
        (Some (MemeGallery.mkState JNull (MemeGallery.exportingId g)))
        (Home.trendingSection a) (Home.modal a) /\
    (forall body, net e (nfetch e) = FetchResponse false body ->
       log (snd (snd r)) = log e ++ [req]) /\
    (forall data, net e (nfetch e) = FetchResponse true (Some data) ->
       log (snd (snd r)) = log e ++ [req; EConsoleLog "3D generation started:" data]) /\
    (net e (nfetch e) = FetchRejected ->
       log (snd (snd r)) =
         log e ++ [req; EConsoleError "Failed to generate 3D:" (TypeError "Failed to fetch")]).
Proof.
  intros a e g memeId Hg. destruct a as [h u g' t m]. cbn in Hg. subst g'.
  run_js; rewrite <- ?app_assoc; cbn; split_and!; intros; simplify_eq; reflexivity.
Qed.

(** X7.  When a completion timeout fires, the modal is closed and
    [isProcessing] and [currentMemeId] are reset whichever meme the timeout
    was set for; the memes are left as they are and nothing is logged. *)
Theorem timeout_closes_modal :
  forall (a : Home.App) (e : Env) (m : JSValue) (rest : list JSValue),
    timers e = m :: rest ->
    let w := Home.step (a, e) Home.TimeoutFires in
    Home.isProcessing (Home.home (fst w)) = false /\
    Home.currentMemeId (Home.home (fst w)) = JNull /\
    Home.modal (fst w) = None /\
    Home.memes (Home.home (fst w)) = Home.memes (Home.home a) /\
    timers (snd w) = rest /\
    log (snd w) = log e.
Proof.
  intros a e m rest Ht. unfold Home.step, Home.handler, bind, get_env. cbn.
  rewrite Ht. run_js; split_and!; reflexivity.
Qed.

(* --------------------------------------------------------------------- *)
(** ** From upload to the closing of the modal *)

(** A tick of the mounted modal before the last stage. *)
Lemma interval_tick_advances h u g t s e :
  ProcessingModal.interval s = true ->
  (ProcessingModal.step s < 4)%Z ->
  Home.step (Home.mkApp h u g t (Some s), e) Home.IntervalTick =
    (Home.mkApp h u g t
       (Some (ProcessingModal.mkState (ProcessingModal.step s + 1)
                (ProcessingModal.isComplete s) true)), e).
Proof.
  intros Hi Hs. unfold Home.step, Home.handler. unfold_js. cbn.
  rewrite Hi. cbn. change (Z.of_nat 5 - 1)%Z with 4%Z.
  destruct (4 <=? ProcessingModal.step s)%Z eqn:Hle; [apply Z.leb_le in Hle; lia|].
  cbn. rewrite Hi. reflexivity.
Qed.

(** A tick of the mounted modal at the last stage. *)
Lemma interval_tick_completes h u g t s e :
  ProcessingModal.interval s = true ->
  (4 <= ProcessingModal.step s)%Z ->
  Home.step (Home.mkApp h u g t (Some s), e) Home.IntervalTick =
    (Home.mkApp h u g t (Some (ProcessingModal.mkState (ProcessingModal.step s) true false)),
     set_timers (timers e ++ [Home.currentMemeId h])
       (emit (ESetTimeout 2000 (Home.currentMemeId h)) e)).
Proof.
  intros Hi Hs. unfold Home.step, Home.handler. unfold_js. cbn.
  rewrite Hi. cbn. change (Z.of_nat 5 - 1)%Z with 4%Z.
  destruct (4 <=? ProcessingModal.step s)%Z eqn:Hle; [|apply Z.leb_gt in Hle; lia].
  cbn. reflexivity.
Qed.

(** X8.  From a fresh page, a successful upload with a truthy id opens
    the modal at the first stage; four ticks later it shows the last
    stage, not yet complete; the fifth tick completes it, stops the
    interval and schedules the completion for that id; when the timeout
    fires the modal is closed, while the card still says "processing".
    The whole run made one request. *)
Theorem upload_progress_close :
  forall (uid : string) (e : Env) (file : UploadSection.File) (data mid url : JSValue),
    String.prefix "image/" (UploadSection.type file) = true ->
    timers e = [] ->
    net e (nfetch e) = FetchResponse true (Some data) ->
    get_prop data "meme_id" = inr mid ->
    get_prop data "image_url" = inr url ->
    truthy mid = true ->
    let w1 := Home.step (Home.init uid, e) (Home.SelectFile [file]) in
    let w5 := Home.run (replicate 4 Home.IntervalTick) w1 in
    let w6 := Home.step w5 Home.IntervalTick in
    let w7 := Home.step w6 Home.TimeoutFires in
    Home.modal (fst w1) = Some ProcessingModal.init /\
    Home.modal (fst w5) = Some (ProcessingModal.mkState 4 false true) /\
    Home.modal (fst w6) = Some (ProcessingModal.mkState 4 true false) /\
    timers (snd w6) = [mid] /\
    Home.modal (fst w7) = None /\
    Home.isProcessing (Home.home (fst w7)) = false /\
    Home.currentMemeId (Home.home (fst w7)) = JNull /\
    Home.memes (Home.home (fst w7)) = [MemeGallery.mkMeme mid url "processing" (now e)] /\
    timers (snd w7) = [] /\
    Home.requests (snd w7) = Home.requests e ++ [API_BASE_URL e +:+ "/upload"].
Proof.
  intros uid e file data mid url Hty Ht Hnet Hmid Hurl Htr.
  assert (H1 : Home.step (Home.init uid, e) (Home.SelectFile [file]) =
    (Home.mkApp
       (Home.mkState uid [MemeGallery.mkMeme mid url "processing" (now e)] [] true mid)
       UploadSection.init (Some MemeGallery.init) TrendingSection.init
       (Some ProcessingModal.init),
     emit EClearFileInput
       (count_fetch (emit (EFetch POST (API_BASE_URL e +:+ "/upload")
          (FormData [("file", UploadSection.name file); ("user_id", uid)])) e)))).
  { unfold Home.step, Home.handler, UploadSection.handleDragAndDrop,
      UploadSection.handleFileUpload, bind, get_state. cbn.
    rewrite Hty. cbn [negb]. unfold_js. cbn.
    rewrite Hnet. cbn. rewrite Hmid. cbn. rewrite Hurl. cbn. rewrite Htr. reflexivity. }
  cbn zeta. rewrite H1. clear H1.
  unfold Home.run. cbn [replicate fold_left].
  rewrite 4 interval_tick_advances by (cbn; first [reflexivity | lia]). cbn.
  rewrite interval_tick_completes by (cbn; first [reflexivity | lia]). cbn.
  rewrite Ht. cbn.
  unfold Home.step, Home.handler. unfold_js. cbn.
  norm_requests. split_and!; reflexivity.
Qed.

Lemma modal_tick memeId s e :
  ProcessingModal.handle memeId ProcessingModal.Tick (s, e) =
    if ProcessingModal.interval s then
      if (4 <=? ProcessingModal.step s)%Z then
        (ProcessingModal.mkState (ProcessingModal.step s) true false,
         set_timers (timers e ++ [memeId]) (emit (ESetTimeout 2000 memeId) e))
      else
        (ProcessingModal.mkState (ProcessingModal.step s + 1)
           (ProcessingModal.isComplete s) (ProcessingModal.interval s), e)
    else (s, e).
Proof.
  cbn. unfold_js. cbn. change (Z.of_nat 5 - 1)%Z with 4%Z.
  destruct (ProcessingModal.interval s) eqn:Hi; cbn; [|reflexivity].
  destruct (4 <=? ProcessingModal.step s)%Z; cbn; rewrite ?Hi; reflexivity.
Qed.

(** X9.  As long as the effect of the modal is not re-run, the modal is
    complete exactly from the fifth tick on, its interval is live exactly
    until then, and the completion callback is scheduled once, by that
    tick, and never again. *)
Theorem modal_completes_on_fifth_tick :
  forall (memeId : JSValue) (evs : list ProcessingModal.Event) (e0 : Env),
    forallb (fun ev => negb (HomeView.is_rerun ev)) evs = true ->
    let w := ProcessingModal.run memeId evs (ProcessingModal.init, e0) in
    let n := ProcessingModal.count_events ProcessingModal.is_tick evs in
    ProcessingModal.isComplete (fst w) = (5 <=? n)%Z /\
    ProcessingModal.interval (fst w) = negb (5 <=? n)%Z /\
    timers (snd w) = timers e0 ++ (if (5 <=? n)%Z then [memeId] else []) /\
    ProcessingModal.step (fst w) = Z.min n 4.
Proof.
  intros memeId evs e0. cbn zeta.
  induction evs as [|ev evs IH] using rev_ind; intros Hno.
  - cbn. rewrite app_nil_r. split_and!; reflexivity.
  - rewrite forallb_app in Hno. apply andb_true_iff in Hno as [Hno Hev].
    specialize (IH Hno). rewrite run_snoc.
    destruct (ProcessingModal.run memeId evs (ProcessingModal.init, e0)) as [s e].
    cbn [fst snd] in IH. destruct IH as (I1 & I2 & I3 & I4).
    unfold ProcessingModal.count_events in *.
    rewrite List.filter_app, length_app, Nat2Z.inj_add.
    set (n := Z.of_nat (length (List.filter ProcessingModal.is_tick evs))) in *.
    assert (Hn : (0 <= n)%Z) by (subst n; lia).
    destruct ev; cbn [List.filter ProcessingModal.is_tick length] in *;
      [|discriminate|]; change (Z.of_nat 1) with 1%Z; change (Z.of_nat 0) with 0%Z.
    + rewrite modal_tick. rewrite I2.
      destruct (5 <=? n)%Z eqn:H5; cbn [negb].
      * apply Z.leb_le in H5. cbn [fst snd].
        replace (5 <=? n + 1)%Z with true by (symmetry; apply Z.leb_le; lia).
        split_and!; auto. lia.
      * apply Z.leb_gt in H5.
        destruct (4 <=? ProcessingModal.step s)%Z eqn:H4; cbn [fst snd].
        -- apply Z.leb_le in H4.
           replace (5 <=? n + 1)%Z with true by (symmetry; apply Z.leb_le; lia).
           cbn. rewrite I3, app_nil_r. split_and!; auto. lia.
        -- apply Z.leb_gt in H4.
           replace (5 <=? n + 1)%Z with false by (symmetry; apply Z.leb_gt; lia).
           cbn. split_and!; auto. lia.
    + cbn. rewrite Z.add_0_r. split_and!; auto.
Qed.

(* --------------------------------------------------------------------- *)
(** ** Every run from a fresh page *)

Lemma prefix_append s t : String.prefix s (s +:+ t) = true.
Proof.
  induction s as [|c s IH]; simpl.
  - destruct t; reflexivity.
  - destruct (Ascii.ascii_dec c c); [exact IH|congruence].
Qed.

Ltac step_cases :=
  unfold Home.step, Home.handler; run_js.

(** One event: the memes. *)
Lemma step_memes a e ev :
  let a' := fst (Home.step (a, e) ev) in
  Home.memes (Home.home a) `suffix_of` Home.memes (Home.home a') /\
  length (Home.memes (Home.home a')) <= S (length (Home.memes (Home.home a))) /\
  (HomeView.file_event ev = false -> Home.memes (Home.home a') = Home.memes (Home.home a)) /\
  (HomeView.all_processing a -> HomeView.all_processing a') /\
  Home.userId (Home.home a') = Home.userId (Home.home a).
Proof.
  destruct a as [h u g t m]. unfold HomeView.all_processing.
  destruct ev; step_cases; split_and!; try reflexivity; try discriminate;
    try (cbn; lia); try (intros; assumption).
  all: try (apply suffix_cons_r; reflexivity).
  all: try (intros Hall; apply Forall_cons; split; [reflexivity|exact Hall]).
Qed.

(** One event: the requests. *)
Lemma step_log a e ev :
  let w := Home.step (a, e) ev in
  NEXT_PUBLIC_API_URL (snd w) = NEXT_PUBLIC_API_URL e /\
  (Forall (HomeView.request_ok (API_BASE_URL e) (Home.userId (Home.home a))) (log e) ->
   Forall (HomeView.request_ok (API_BASE_URL e) (Home.userId (Home.home a))) (log (snd w))) /\
  length (Home.requests (snd w)) <= S (length (Home.requests e)) /\
  nfetch (snd w) + length (Home.requests e) = nfetch e + length (Home.requests (snd w)).
Proof.
  destruct a as [h u g t m].
  destruct ev; step_cases; norm_requests; split_and!; try reflexivity;
    rewrite ?length_app; cbn; try lia; try (intros; assumption).
  all: intros Hall; rewrite <- ?app_assoc; apply Forall_app; split; [exact Hall|].
  all: repeat (apply Forall_cons; split); try apply Forall_nil; cbn; try exact I.
  all: try (split; [apply prefix_append | first [exact I | eexists; reflexivity]]).
Qed.

(** One event: what stays mounted. *)
Lemma step_mounted a e ev :
  HomeView.mounted a -> HomeView.mounted (fst (Home.step (a, e) ev)).
Proof.
  destruct a as [h u g t m]. unfold HomeView.mounted. cbn. intros [Hg Hm].
  destruct ev; step_cases.
  all: try (split; [exact Hg|exact Hm]).
  all: repeat match goal with
         | H : context [match Home.memes ?x with _ => _ end] |- _ =>
             destruct (Home.memes x) eqn:?
         | |- context [match Home.memes ?x with _ => _ end] =>
             destruct (Home.memes x) eqn:?
         end; simplify_eq; cbn in *.
  all: try (split; [reflexivity|]).
  all: try (rewrite is_Some_alt in *; cbn in *; tauto).
  all: try (split; [intros _; reflexivity | intros _; eexists; reflexivity]).
  all: try (split; [intros [? ?]; discriminate | discriminate]).
Qed.

Lemma home_run_snoc evs ev w : Home.run (evs ++ [ev]) w = Home.step (Home.run evs w) ev.
Proof. unfold Home.run. rewrite fold_left_app. reflexivity. Qed.

Lemma API_BASE_URL_env e e' :
  NEXT_PUBLIC_API_URL e' = NEXT_PUBLIC_API_URL e -> API_BASE_URL e' = API_BASE_URL e.
Proof. unfold API_BASE_URL. intros ->. reflexivity. Qed.

(** What holds of every state reached from a fresh page. *)
Lemma home_run_inv evs uid e0 :
  let w := Home.run evs (Home.init uid, e0) in
  HomeView.all_processing (fst w) /\
  HomeView.mounted (fst w) /\
  Home.userId (Home.home (fst w)) = uid /\
  NEXT_PUBLIC_API_URL (snd w) = NEXT_PUBLIC_API_URL e0 /\
  (Forall (HomeView.request_ok (API_BASE_URL e0) uid) (log e0) ->
   Forall (HomeView.request_ok (API_BASE_URL e0) uid) (log (snd w))) /\
  length (Home.requests (snd w)) <= length (Home.requests e0) + length evs /\
  nfetch (snd w) + length (Home.requests e0) = nfetch e0 + length (Home.requests (snd w)).
Proof.
  induction evs as [|ev evs IH] using rev_ind.
  - cbn. split_and!; try reflexivity; try lia; try (intros; assumption).
    all: try apply Forall_nil; try exact I.
    unfold HomeView.mounted; cbn. split; [reflexivity|].
    split; [intros [? ?]; discriminate|discriminate].
  - rewrite home_run_snoc. cbn zeta in IH.
    destruct (Home.run evs (Home.init uid, e0)) as [a e]. cbn [fst snd] in IH.
    destruct IH as (I1 & I2 & I3 & I4 & I5 & I6 & I7).
    pose proof (step_memes a e ev) as (_ & _ & _ & M4 & M5).
    pose proof (step_log a e ev) as (L1 & L2 & L3 & L4).
    pose proof (step_mounted a e ev I2) as Hm.
    cbn zeta in *. rewrite (API_BASE_URL_env e0 e I4), I3 in L2.
    rewrite length_app. cbn [length].
    split_and!; auto; try congruence; try lia.
Qed.

(** X10.  In every state reached from a fresh page, a click on any
    "Generate 3D" button does nothing: every card keeps the status
    "processing", which disables the button. *)
Theorem generate_button_never_fires :
  forall (evs : list Home.Event) (uid : string) (e0 : Env) (i : nat),
    Home.step (Home.run evs (Home.init uid, e0)) (Home.ClickGenerate3D i) =
      Home.run evs (Home.init uid, e0).
Proof.
  intros evs uid e0 i.
  pose proof (home_run_inv evs uid e0) as (Hall & _). cbn zeta in Hall.
  destruct (Home.run evs (Home.init uid, e0)) as [a e]. cbn [fst] in Hall.
  unfold Home.step, Home.handler, bind, get_state. cbn.
  destruct (Home.gallery a) as [g|]; [|reflexivity].
  destruct (Home.memes (Home.home a) !! i) as [m|] eqn:Hm; [|reflexivity].
  unfold HomeView.all_processing in Hall. rewrite Forall_lookup in Hall.
  unfold MemeGallery.generate_disabled. rewrite (Hall i m Hm). cbn.
  rewrite orb_true_r. reflexivity.
Qed.

(** X11.  Whatever happens, the memes already listed stay at the end
    of the list, unchanged and in order; the list grows by at most one
    card per file chosen or dropped; and cards that say "processing" go on
    saying so. *)
Theorem memes_append_only :
  forall (evs : list Home.Event) (a : Home.App) (e : Env),
    let a' := fst (Home.run evs (a, e)) in
    Home.memes (Home.home a) `suffix_of` Home.memes (Home.home a') /\
    length (Home.memes (Home.home a')) <=
      length (Home.memes (Home.home a)) + length (List.filter HomeView.file_event evs) /\
    (HomeView.all_processing a -> HomeView.all_processing a').
Proof.
  intros evs a e. cbn zeta.
  induction evs as [|ev evs IH] using rev_ind.
  - cbn. split_and!; [reflexivity|lia|auto].
  - rewrite home_run_snoc.
    destruct (Home.run evs (a, e)) as [a1 e1]. cbn [fst] in IH.
    destruct IH as (I1 & I2 & I3).
    pose proof (step_memes a1 e1 ev) as (M1 & M2 & M3 & M4 & _). cbn zeta in *.
    rewrite List.filter_app, length_app. cbn [List.filter].
    split_and!.
    + etrans; eassumption.
    + destruct (HomeView.file_event ev) eqn:Hf; cbn [length].
      * lia.
      * rewrite (M3 eq_refl). lia.
    + auto.
Qed.

(** X12.  In every run from a fresh page, every request goes to a URL
    under the configured base, every upload form carries the user id of
    the session, an event issues at most one request, each request
    consumes one answer of the network, and the user id never changes. *)
Theorem requests_stay_on_backend :
  forall (evs : list Home.Event) (uid : string) (e0 : Env),
    let w := Home.run evs (Home.init uid, e0) in
    (Forall (HomeView.request_ok (API_BASE_URL e0) uid) (log e0) ->
     Forall (HomeView.request_ok (API_BASE_URL e0) uid) (log (snd w))) /\
    length (Home.requests (snd w)) <= length (Home.requests e0) + length evs /\
    nfetch (snd w) + length (Home.requests e0) = nfetch e0 + length (Home.requests (snd w)) /\
    Home.userId (Home.home (fst w)) = uid.
Proof.
  intros evs uid e0.
  pose proof (home_run_inv evs uid e0) as (_ & _ & I3 & _ & I5 & I6 & I7).
  cbn zeta in *. auto.
Qed.


(* --------------------------------------------------------------------- *)
(** ** The properties above at concrete inputs *)

Lemma upload_success_adds_meme_witness :
  Home.memes (Home.home (fst (snd
    (UploadSection.handleFileUpload Home.uploadL Home.onUploadSuccess "user-1" png
       (Home.init "user-1", env0 always_ok))))) =
  [MemeGallery.mkMeme (JStr "m1") (JStr "/uploads/m1.png") "processing" 0].
Proof.
  exact (proj1 (proj2
    (upload_success_adds_meme (Home.init "user-1") (env0 always_ok) png "user-1"
       (JObj [("meme_id", JStr "m1"); ("image_url", JStr "/uploads/m1.png")])
       (JStr "m1") (JStr "/uploads/m1.png") eq_refl eq_refl eq_refl eq_refl))).
Defined.

Lemma handleExport_opens_window_on_ok_witness :
  log (snd (snd
    (MemeGallery.handleExport Home.galleryL (JStr "m1")
       (fst (Home.run [Home.SelectFile [png]] (Home.init "user-1", env0 always_ok)),
        env0 always_ok)))) =
  [EFetch POST "http://localhost:5000/export/m1" (JsonBody (JObj [("format", JStr "gif")]));
   EWindowOpen JUndefined].
Proof.
  exact (proj1 (proj2 (proj2
    (handleExport_opens_window_on_ok
       (fst (Home.run [Home.SelectFile [png]] (Home.init "user-1", env0 always_ok)))
       (env0 always_ok) MemeGallery.init (JStr "m1") eq_refl)))
    (JObj [("meme_id", JStr "m1"); ("image_url", JStr "/uploads/m1.png")])
    JUndefined eq_refl eq_refl).
Defined.

Lemma handleGenerate3D_leaves_no_trace_witness :
  fst (snd
    (MemeGallery.handleGenerate3D Home.galleryL (JStr "m1")
       (fst (Home.run [Home.SelectFile [png]] (Home.init "user-1", env0 always_ok)),
        env0 fails_once))) =
  fst (Home.run [Home.SelectFile [png]] (Home.init "user-1", env0 always_ok)).
Proof.
  exact (proj1
    (handleGenerate3D_leaves_no_trace
       (fst (Home.run [Home.SelectFile [png]] (Home.init "user-1", env0 always_ok)))
       (env0 fails_once) MemeGallery.init (JStr "m1") eq_refl)).
Defined.

Lemma timeout_closes_modal_witness :
  let w := Home.step
             (fst (Home.run [Home.SelectFile [png]] (Home.init "user-1", env0 always_ok)),
              mkEnv None always_ok 1 [] [JStr "stale"] 0)
             Home.TimeoutFires in
  Home.isProcessing (Home.home (fst w)) = false /\
  Home.modal (fst w) = None /\
  timers (snd w) = [].
Proof.
  destruct (timeout_closes_modal
              (fst (Home.run [Home.SelectFile [png]] (Home.init "user-1", env0 always_ok)))
              (mkEnv None always_ok 1 [] [JStr "stale"] 0) (JStr "stale") [] eq_refl)
    as (H1 & _ & H3 & _ & H5 & _).
  split_and!; assumption.
Defined.

Lemma upload_progress_close_witness :
  Home.modal (fst
    (Home.step
       (Home.step
          (Home.run (replicate 4 Home.IntervalTick)
             (Home.step (Home.init "user-1", env0 always_ok) (Home.SelectFile [png])))
          Home.IntervalTick)
       Home.TimeoutFires)) = None.
Proof.
  destruct (upload_progress_close "user-1" (env0 always_ok) png
              (JObj [("meme_id", JStr "m1"); ("image_url", JStr "/uploads/m1.png")])
              (JStr "m1") (JStr "/uploads/m1.png")
              eq_refl eq_refl eq_refl eq_refl eq_refl eq_refl)
    as (_ & _ & _ & _ & H5 & _).
  exact H5.
Defined.

Lemma modal_completes_on_fifth_tick_witness :
  let w := ProcessingModal.run (JStr "m1")
             (replicate 5 ProcessingModal.Tick ++ [ProcessingModal.StageCompleted "export"])
             (ProcessingModal.init, env0 always_ok) in
  ProcessingModal.isComplete (fst w) = true /\ timers (snd w) = [JStr "m1"].
Proof.
  destruct (modal_completes_on_fifth_tick (JStr "m1")
              (replicate 5 ProcessingModal.Tick ++ [ProcessingModal.StageCompleted "export"])
              (env0 always_ok) eq_refl)
    as (H1 & _ & H3 & _).
  split; assumption.
Defined.

